(** * msggen.utils: schema bundling and service loading

    A shallow embedding of [contrib/msggen/msggen/utils/utils.py]: the schema
    bundler [combine_schemas], the memoised bundle getter
    [get_schema_bundle], the two loaders [load_jsonrpc_method] and
    [load_notification], and the service assembler [load_jsonrpc_service]
    with its manifest.

    Python values are modelled as follows.
    - [str] is [string]; every name that occurs in the manifest is ASCII, and
      [lower] is Python's [str.lower] on ASCII text.
    - a parsed JSON document is a [json] tree; a Python [dict] (and an
      [OrderedDict]) is an association list in insertion order.
    - exceptions are values of [exn]; a computation that can raise and that
      reads or writes a store has type [M S A].
    - the file system is a tree of [node]s, the order of a directory's entry
      list being the order in which the operating system enumerates it. *)

From Stdlib Require Import String Ascii List ZArith Lia.
From stdpp Require Import base option list strings pretty sorting.

#[local] Set Warnings "-register-all".

Local Open Scope string_scope.
Local Open Scope list_scope.

(** ** Exceptions and the state-and-exception monad *)

Inductive exn : Type :=
  | FileNotFoundError
  | NotADirectoryError
  | IsADirectoryError
  | JSONDecodeError
  | KeyError (key : string)
  | TypeError
  | RecursionError
  | SchemaShapeError (msg : string).

Inductive result (A : Type) : Type :=
  | Ok (a : A)
  | Raise (e : exn).
Arguments Ok {A} a.
Arguments Raise {A} e.

Definition M (S A : Type) : Type := S → result A * S.

Definition ret {S A} (a : A) : M S A := λ s, (Ok a, s).
Definition raise {S A} (e : exn) : M S A := λ s, (Raise e, s).
Definition bind {S A B} (m : M S A) (k : A → M S B) : M S B :=
  λ s, match m s with
       | (Ok a, s') => k a s'
       | (Raise e, s') => (Raise e, s')
       end.
Definition lift {S A} (r : result A) : M S A := λ s, (r, s).

Declare Scope io_scope.
Delimit Scope io_scope with io.
Notation "x <- m ;; k" := (bind m (λ x, k))
  (at level 100, m at next level, right associativity) : io_scope.
Notation "m >> k" := (bind m (λ _, k))
  (at level 100, right associativity) : io_scope.

(** Pure computations that can raise. *)
Definition rbind {A B} (r : result A) (k : A → result B) : result B :=
  match r with Ok a => k a | Raise e => Raise e end.

Declare Scope res_scope.
Delimit Scope res_scope with res.
Notation "x <- m ;; k" := (rbind m (λ x, k))
  (at level 100, m at next level, right associativity) : res_scope.

(** [[f(x) for x in xs]]: the elements are computed left to right and the
    first exception ends the comprehension. *)
Fixpoint mapM {S A B} (f : A → M S B) (xs : list A) : M S (list B) :=
  match xs with
  | [] => ret []
  | x :: xs' => (y <- f x;; ys <- mapM f xs';; ret (y :: ys))%io
  end.

(** The same comprehension over a function without effects. *)
Fixpoint mapR {A B} (f : A → result B) (xs : list A) : result (list B) :=
  match xs with
  | [] => Ok []
  | x :: xs' => (y <- f x;; ys <- mapR f xs';; Ok (y :: ys))%res
  end.

(** ** Strings *)

Definition lower_ascii (c : ascii) : ascii :=
  let n := Ascii.N_of_ascii c in
  if ((65 <=? n) && (n <=? 90))%N then Ascii.ascii_of_N (n + 32) else c.

Fixpoint lower (s : string) : string :=
  match s with
  | EmptyString => EmptyString
  | String c s' => String (lower_ascii c) (lower s')
  end.

Definition endswith (s suffix : string) : bool :=
  (String.length suffix <=? String.length s)%nat
  && String.eqb
       (substring (String.length s - String.length suffix)
                  (String.length suffix) s)
       suffix.

(** ** JSON documents and dictionaries *)

Inductive json : Type :=
  | JNull
  | JBool (b : bool)
  | JInt (n : Z)
  | JFloat (bits : Z)
  | JStr (s : string)
  | JArr (items : list json)
  | JObj (members : list (string * json)).

(** [d[k]] on an association list: the entry of key [k]. *)
Fixpoint dict_get {V} (k : string) (d : list (string * V)) : option V :=
  match d with
  | [] => None
  | (k', v) :: d' => if String.eqb k k' then Some v else dict_get k d'
  end.

(** [d[k] = v]: an existing key keeps its position, a new key goes last. *)
Fixpoint dict_set {V} (k : string) (v : V) (d : list (string * V))
  : list (string * V) :=
  match d with
  | [] => [(k, v)]
  | (k', v') :: d' =>
      if String.eqb k k' then (k', v) :: d' else (k', v') :: dict_set k v d'
  end.

(** [v[k]] for a string key [k]: only a [dict] can be subscripted by a
    string, and a missing key is a [KeyError]. *)
Definition getitem (v : json) (k : string) : result json :=
  match v with
  | JObj d =>
      match dict_get k d with
      | Some x => Ok x
      | None => Raise (KeyError k)
      end
  | _ => Raise TypeError
  end.

(** The [json] module of the Python library: [json.load] on the text of a
    file ([None] when it raises), and [json.dump] with an [indent].
    [json.dump] writes the text [json_dumps indent doc] piece by piece; it
    can raise on the way (a [RecursionError] on a deeply nested document),
    in which case [json_dump_raises indent doc] is the exception and the
    part of the text that was written before it. *)
Class JsonCodec : Type := {
  json_loads : string → option json;
  json_dumps : nat → json → string;
  json_dump_raises : nat → json → option (exn * string)
}.

(** ** The file system *)

Inductive node : Type :=
  | File (data : string)
  | Dir (entries : list (string * node)).

(** A [Path], as its components below the root. *)
Definition path : Type := list string.

(** [p.name]: the last component. *)
Definition name (p : path) : string := List.last p "".

(** The node a path leads to, if any. A path that leads through a file
    leads nowhere; the operations below report it like a missing path. *)
Fixpoint resolve (fs : node) (p : path) : option node :=
  match p with
  | [] => Some fs
  | c :: p' =>
      match fs with
      | Dir es =>
          match dict_get c es with
          | Some child => resolve child p'
          | None => None
          end
      | File _ => None
      end
  end.

(** [p.iterdir()], made a list: the children of [p] in the order the
    directory enumerates them. *)
Definition iterdir (p : path) : M node (list path) :=
  λ fs, match resolve fs p with
        | Some (Dir es) => (Ok (map (λ e, p ++ [e.1]) es), fs)
        | Some (File _) => (Raise NotADirectoryError, fs)
        | None => (Raise FileNotFoundError, fs)
        end.

(** [p.open().read()]. *)
Definition read_text (p : path) : M node string :=
  λ fs, match resolve fs p with
        | Some (File data) => (Ok data, fs)
        | Some (Dir _) => (Raise IsADirectoryError, fs)
        | None => (Raise FileNotFoundError, fs)
        end.

(** The tree after [p.open(mode='w')] and a write of [data]: the file is
    created or replaced; its directory must exist. *)
Fixpoint write_node (fs : node) (p : path) (data : string) : result node :=
  match p with
  | [] => Raise IsADirectoryError
  | c :: p' =>
      match fs with
      | File _ => Raise NotADirectoryError
      | Dir es =>
          match p' with
          | [] =>
              match dict_get c es with
              | Some (Dir _) => Raise IsADirectoryError
              | _ => Ok (Dir (dict_set c (File data) es))
              end
          | _ :: _ =>
              match dict_get c es with
              | Some child =>
                  (child' <- write_node child p' data;;
                   Ok (Dir (dict_set c child' es)))%res
              | None => Raise FileNotFoundError
              end
          end
      end
  end.

(** The file at [p] gets the content [data]; nothing changes when [p]
    cannot be written. *)
Definition put_text (p : path) (data : string) : M node unit :=
  λ fs, match write_node fs p data with
        | Ok fs' => (Ok tt, fs')
        | Raise e => (Raise e, fs)
        end.

(** [p.open(mode='w')]: the file is created, or emptied when it exists. *)
Definition open_w (p : path) : M node unit := put_text p "".

(** The order of [Path] objects: component by component, each component as
    a string; a proper prefix comes first. *)
Fixpoint path_le (p q : path) : Prop :=
  match p, q with
  | [], _ => True
  | _ :: _, [] => False
  | a :: p', b :: q' =>
      if decide (a = b) then path_le p' q' else String.le a b
  end.

#[global] Instance path_le_dec : RelDecision path_le.
Proof.
  intros p. induction p as [|a p IH]; intros [|b q]; simpl.
  - left; exact I.
  - left; exact I.
  - right; intros [].
  - destruct (decide (a = b)); [apply IH | apply _].
Defined.

(** [sorted(paths)]. The order of paths is total and antisymmetric, so the
    sorted list does not depend on the sorting algorithm. *)
Definition sorted (ps : list path) : list path := merge_sort path_le ps.

(** ** The bundler *)

Section Bundler.
Context `{JsonCodec}.

Definition json_load (f : path) : M node json :=
  (text <- read_text f;;
   match json_loads text with
   | Some doc => ret doc
   | None => raise JSONDecodeError
   end)%io.

(** [json.dump(doc, f, indent=indent)] on the file [f] opened at [p]: when
    it raises, the file keeps the part written so far. *)
Definition json_dump (doc : json) (p : path) (indent : nat) : M node unit :=
  match json_dump_raises indent doc with
  | None => put_text p (json_dumps indent doc)
  | Some (e, written) => (put_text p written >> raise e)%io
  end.

(** The test that guards [continue] in the loop over the method files. *)
Definition skip_method (fname : string) : bool :=
  negb (endswith fname ".json") || String.eqb fname "lightning-sql.json".

(** The test that guards [continue] in the loop over the notification
    files. *)
Definition skip_notification (fname : string) : bool :=
  negb (endswith fname "json").

(** [for f in files: if skip(f.name): continue; acc[f.name] = json.load(f.open())] *)
Fixpoint parse_files (skip : string → bool) (files : list path)
    (acc : list (string * json)) : M node (list (string * json)) :=
  match files with
  | [] => ret acc
  | f :: rest =>
      if skip (name f) then parse_files skip rest acc
      else (doc <- json_load f;;
            parse_files skip rest (dict_set (name f) doc acc))%io
  end.

Definition combine_schemas (schema_dir dest : path) : M node json :=
  (files <- iterdir schema_dir;;
   methods <- parse_files skip_method (sorted files) [];;
   let notifications_dir := schema_dir ++ ["notification"] in
   files <- iterdir notifications_dir;;
   notifications <- parse_files skip_notification (sorted files) [];;
   let bundle :=
     dict_set "notifications" (JObj notifications)
       (dict_set "methods" (JObj methods) []) in
   open_w dest >>
   json_dump (JObj bundle) dest 2 >>
   ret (JObj bundle))%io.
End Bundler.

(** ** The type model of [msggen.model]

    The module [msggen.model] is not among the sources. Its records are
    modelled from the spec's data model, and its builder
    [CompositeField.from_js] is a parameter of the loaders. *)

(** Modelled from the spec: [TypeName], the name of a generated type. *)
Record TypeName : Type := mkTypeName { tn_name : string }.

(** Modelled from the spec: [typename += suffix], which appends the suffix
    to the name. *)
Definition TypeName_iadd (t : TypeName) (suffix : string) : TypeName :=
  mkTypeName (tn_name t +:+ suffix).

(** Modelled from the spec: [CompositeField], a node of the type tree,
    which carries a mutable [typename]. The loaders read and assign the
    [typename] only; [cf_path] is the path the node was built for and
    [cf_schema] the schema subtree it was built from. *)
Record CompositeField : Type := mkCompositeField {
  typename : TypeName;
  cf_path : string;
  cf_schema : json
}.

(** [c.typename = t]. *)
Definition set_typename (t : TypeName) (c : CompositeField) : CompositeField :=
  mkCompositeField t (cf_path c) (cf_schema c).

(** Modelled from the spec: [Method], with its name, request and response. *)
Record Method : Type := mkMethod {
  m_name : string;
  m_request : CompositeField;
  m_response : CompositeField
}.

(** Modelled from the spec: [Notification], with its name, type name,
    request and response. *)
Record Notification : Type := mkNotification {
  n_name : string;
  n_typename : TypeName;
  n_request : CompositeField;
  n_response : CompositeField
}.

(** Modelled from the spec: [Service], with its name, methods,
    notifications and includes. *)
Record Service : Type := mkService {
  s_name : string;
  s_methods : list Method;
  s_notifications : list Notification;
  s_includes : list string
}.

(** [CompositeField.from_js(js, path)], the type-model builder: it returns
    the tree it builds or raises. *)
Class TypeModel : Type := {
  from_js : json → string → result CompositeField
}.

(** ** The bundle cache *)

(** A Python object: a value with an identity. *)
Record object : Type := mkObject { oid : nat; value : json }.

(** What the loaders see of the running process: the packaged resource
    [msggen/schema.json] ([None] when it cannot be opened), how often it was
    opened, the identity the next allocated object gets, and the entry of
    the [lru_cache] around [get_schema_bundle]. *)
Record process : Type := mkProcess {
  resource : option string;
  opens : nat;
  next_oid : nat;
  cache : option object
}.

Section Loaders.
Context `{JsonCodec} `{TypeModel}.

(** [resources.open_text("msggen", "schema.json")], read to the end. *)
Definition open_text : M process string :=
  λ s, let s' := mkProcess (resource s) (S (opens s)) (next_oid s) (cache s) in
       match resource s with
       | Some text => (Ok text, s')
       | None => (Raise FileNotFoundError, s')
       end.

(** [json.load(p)]: a successful parse allocates a new object. *)
Definition json_load_object (text : string) : M process object :=
  λ s, match json_loads text with
       | Some doc =>
           (Ok (mkObject (next_oid s) doc),
            mkProcess (resource s) (opens s) (S (next_oid s)) (cache s))
       | None => (Raise JSONDecodeError, s)
       end.

(** The body of [get_schema_bundle], without its decorator. *)
Definition get_schema_bundle_body : M process object :=
  (p <- open_text;; json_load_object p)%io.

(** [functools.lru_cache(maxsize=1)] around a function of no argument:
    a hit returns the stored object; a miss runs the function and stores
    what it returns; an exception stores nothing. *)
Definition lru_cache (f : M process object) : M process object :=
  λ s, match cache s with
       | Some o => (Ok o, s)
       | None =>
           match f s with
           | (Ok o, s') =>
               (Ok o, mkProcess (resource s') (opens s') (next_oid s') (Some o))
           | (Raise e, s') => (Raise e, s')
           end
       end.

Definition get_schema_bundle : M process object :=
  lru_cache get_schema_bundle_body.

(** ** The loaders *)

(** [load_jsonrpc_method] from its second statement on, [schema] being
    the bundle that the first statement fetched. *)
Definition method_from_schema (schema : json) (name : string)
  : result Method :=
  (let rpc_name := "lightning-" +:+ lower name +:+ ".json" in
   request <- (methods <- getitem schema "methods";;
               entry <- getitem methods rpc_name;;
               js <- getitem entry "request";;
               from_js js name);;
   response <- (methods <- getitem schema "methods";;
                entry <- getitem methods rpc_name;;
                js <- getitem entry "response";;
                from_js js name);;
   let request :=
     set_typename (TypeName_iadd (typename request) "Request") request in
   let response :=
     set_typename (TypeName_iadd (typename response) "Response") response in
   Ok (mkMethod name request response))%res.

Definition load_jsonrpc_method (name : string) : M process Method :=
  (schema <- get_schema_bundle;;
   lift (method_from_schema (value schema) name))%io.

(** [load_notification] from its third statement on. The manifest passes
    [typename] as a [str], which [str(typename)] leaves as it is. *)
Definition notification_from_schema (schema : json) (name typename : string)
  : result Notification :=
  (notifications <- getitem schema "notifications";;
   let req_file := lower name +:+ ".request.json" in
   let resp_file := lower name +:+ ".schema.json" in
   request <- (js <- getitem notifications req_file;; from_js js name);;
   response <- (js <- getitem notifications resp_file;; from_js js name);;
   let request :=
     set_typename (mkTypeName ("Stream" +:+ typename +:+ "Request")) request in
   let response :=
     set_typename (mkTypeName (typename +:+ "Notification")) response in
   Ok (mkNotification name (mkTypeName typename) request response))%res.

Definition load_notification (name typename : string)
  : M process Notification :=
  (schema <- get_schema_bundle;;
   lift (notification_from_schema (value schema) name typename))%io.

Definition method_names : list string :=
  [ "Getinfo"; "ListPeers"; "ListFunds"; "SendPay"; "ListChannels";
    "AddGossip"; "AutoCleanInvoice"; "AutoClean-Once"; "AutoClean-Status";
    "CheckMessage"; "Close"; "Connect"; "CreateInvoice"; "Datastore";
    "DatastoreUsage"; "CreateOnion"; "DelDatastore"; "DelInvoice";
    "Invoice"; "ListDatastore"; "ListInvoices"; "SendOnion";
    "ListSendPays"; "ListTransactions"; "Pay"; "ListNodes";
    "WaitAnyInvoice"; "WaitInvoice"; "WaitSendPay"; "NewAddr"; "Withdraw";
    "KeySend"; "FundPsbt"; "SendPsbt"; "SignPsbt"; "UtxoPsbt"; "TxDiscard";
    "TxPrepare"; "TxSend"; "ListPeerChannels"; "ListClosedChannels";
    "DecodePay"; "Decode"; "DelPay"; "DelForward"; "DisableOffer";
    "Disconnect"; "Feerates"; "FetchInvoice"; "FundChannel_Cancel";
    "FundChannel_Complete"; "FundChannel"; "FundChannel_Start";
    "GetLog"; "GetRoute"; "ListForwards"; "ListOffers"; "ListPays";
    "ListHtlcs"; "MultiFundChannel";
    "Offer"; "OpenChannel_Abort"; "OpenChannel_Bump"; "OpenChannel_Init";
    "OpenChannel_Signed"; "OpenChannel_Update";
    "Ping"; "Plugin"; "RenePayStatus"; "RenePay"; "ReserveInputs";
    "SendCustomMsg"; "SendInvoice"; "SendOnionMessage"; "SetChannel";
    "SetConfig"; "SetPsbtVersion"; "SignInvoice"; "SignMessage";
    "Splice_Init"; "Splice_Signed"; "Splice_Update"; "UnreserveInputs";
    "UpgradeWallet"; "WaitBlockHeight"; "Wait";
    "Stop";
    "PreApproveKeysend"; "PreApproveInvoice"; "StaticBackup";
    "Bkpr-ChannelsApy"; "Bkpr-DumpIncomeCsv"; "Bkpr-Inspect";
    "Bkpr-ListAccountEvents"; "Bkpr-ListBalances"; "Bkpr-ListIncome" ].

(** Each descriptor [{"name": n, "typename": t}] as the pair [(n, t)]. *)
Definition notification_names : list (string * string) :=
  [ ("block_added", "BlockAdded");
    ("channel_open_failed", "ChannelOpenFailed");
    ("channel_opened", "ChannelOpened");
    ("connect", "Connect");
    ("custommsg", "CustomMsg") ].

(** The constructor [Service] is given no includes; the assignment to
    [service.includes] sets them. *)
Definition load_jsonrpc_service : M process Service :=
  (methods <- mapM load_jsonrpc_method method_names;;
   notifications <- mapM (λ names, load_notification names.1 names.2)
                      notification_names;;
   let service := mkService "Node" methods notifications [] in
   let service :=
     mkService (s_name service) (s_methods service)
       (s_notifications service) ["primitives.proto"] in
   ret service)%io.
End Loaders.

(** ** Directories as the bundler sees them *)

(** A directory tree in which no directory lists a name twice. *)
Inductive well_formed : node → Prop :=
  | wf_File data : well_formed (File data)
  | wf_Dir es :
      NoDup es.*1 → Forall (λ e, well_formed e.2) es → well_formed (Dir es).

(** Two trees with the same content: the same files with the same data,
    every directory listing its entries in an order of its own. *)
Inductive same_tree : node → node → Prop :=
  | same_File data : same_tree (File data) (File data)
  | same_Dir es1 es es2 :
      es1 ≡ₚ es →
      Forall2 (λ a b, a.1 = b.1 ∧ same_tree a.2 b.2) es es2 →
      same_tree (Dir es1) (Dir es2).

(** What [json.load(f.open())] makes of the node a path resolves to. *)
Definition read_doc `{JsonCodec} (n : option node) : result json :=
  match n with
  | Some (File data) =>
      match json_loads data with
      | Some doc => Ok doc
      | None => Raise JSONDecodeError
      end
  | Some (Dir _) => Raise IsADirectoryError
  | None => Raise FileNotFoundError
  end.

(** The entries of a listing that a loop of the bundler reads, each with
    its parsed content. *)
Definition bundled `{JsonCodec} (skip : string → bool)
    (es : list (string * node)) (k : string) (doc : json) : Prop :=
  skip k = false ∧ ∃ data, (k, File data) ∈ es ∧ json_loads data = Some doc.

(** A loop of the bundler over [files], [read] telling what the file at a
    path parses to. *)
Fixpoint collect (skip : string → bool) (read : path → result json)
    (files : list path) (acc : list (string * json))
  : result (list (string * json)) :=
  match files with
  | [] => Ok acc
  | f :: rest =>
      if skip (name f) then collect skip read rest acc
      else (doc <- read f;;
            collect skip read rest (dict_set (name f) doc acc))%res
  end.

(** The enumeration of the directory [dir], which resolves to [t], and the
    loop over it. *)
Definition collect_dir `{JsonCodec} (skip : string → bool) (dir : path)
    (t : option node) : result (list (string * json)) :=
  match t with
  | Some (Dir es) =>
      collect skip (λ f, read_doc (dict_get (name f) es))
        (sorted ((λ e, dir ++ [e.1]) <$> es)) []
  | Some (File _) => Raise NotADirectoryError
  | None => Raise FileNotFoundError
  end.

(** [combine_schemas] up to the line that opens the destination. *)
Definition read_bundle `{JsonCodec} (schema_dir : path) (fs : node)
  : result json :=
  (methods <- collect_dir skip_method schema_dir (resolve fs schema_dir);;
   notifications <-
     collect_dir skip_notification (schema_dir ++ ["notification"])
       (resolve fs (schema_dir ++ ["notification"]));;
   Ok (JObj [("methods", JObj methods);
             ("notifications", JObj notifications)]))%res.

(** [n] calls of the getter in a row. *)
Definition get_schema_bundle_times `{JsonCodec} (n : nat)
  : M process (list object) :=
  mapM (λ _ : unit, get_schema_bundle) (replicate n tt).

(** The process of [s] after its storage changed to [r]. *)
Definition with_resource (r : option string) (s : process) : process :=
  mkProcess r (opens s) (next_oid s) (cache s).


(** Modelled from the spec: a type-model builder that accepts every schema
    subtree and names the tree after its path, as [names_tree_after_path]
    says; [msggen.model] is not among the sources. *)
Definition path_named_from_js (js : json) (path : string)
  : result CompositeField :=
  Ok (mkCompositeField (mkTypeName path) path js).

(** Every entry of a listing that a loop does not skip is a file that
    parses. *)
Definition readable `{JsonCodec} (skip : string → bool)
    (es : list (string * node)) : Prop :=
  ∀ k, k ∈ es.*1 → skip k = false →
       ∃ data doc, dict_get k es = Some (File data)
                   ∧ json_loads data = Some doc.

(** A file can be opened for writing at [p]: the directory of [p] exists
    and [p] itself is no directory. *)
Definition writable (fs : node) (p : path) : Prop :=
  ∃ parent k es,
    p = parent ++ [k]
    ∧ resolve fs parent = Some (Dir es)
    ∧ ∀ es', dict_get k es ≠ Some (Dir es').

(** ** Data for the examples *)

Module Examples.

(** Indented rendering of a document, [level] levels deep. *)
Fixpoint render (indent level : nat) (v : json) : string :=
  let nl l := String "010" (String.concat "" (replicate (indent * l) " ")) in
  let quote s := String "034" (s +:+ String "034" EmptyString) in
  match v with
  | JNull => "null"
  | JBool true => "true"
  | JBool false => "false"
  | JInt n => pretty n
  | JFloat bits => "float(" +:+ pretty bits +:+ ")"
  | JStr s => quote s
  | JArr [] => "[]"
  | JArr items =>
      "[" +:+ nl (S level)
      +:+ String.concat ("," +:+ nl (S level))
            (map (render indent (S level)) items)
      +:+ nl level +:+ "]"
  | JObj [] => "{}"
  | JObj members =>
      "{" +:+ nl (S level)
      +:+ String.concat ("," +:+ nl (S level))
            (map (λ kv, let '(k, x) := kv in
                        quote k +:+ ": " +:+ render indent (S level) x)
                 members)
      +:+ nl level +:+ "}"
  end.

(** A codec that parses the texts of a table and writes with [render]. *)
Definition table_codec (docs : list (string * json)) : JsonCodec :=
  {| json_loads text := dict_get text docs;
     json_dumps indent doc := render indent 0 doc;
     json_dump_raises _ _ := None |}.

Definition path_named_model : TypeModel :=
  {| from_js := path_named_from_js |}.

(** A type-model builder that rejects every schema subtree. *)
Definition rejecting_model : TypeModel :=
  {| from_js _ _ := Raise (SchemaShapeError "unsupported") |}.

Definition call_schema : json :=
  JObj [("request", JObj [("properties", JObj [])]);
        ("response", JObj [("properties", JObj [])])].

(** A bundle with an entry for every name of the manifest. *)
Definition full_bundle : json :=
  JObj [("methods",
         JObj (map (λ n, ("lightning-" +:+ lower n +:+ ".json", call_schema))
                   method_names));
        ("notifications",
         JObj (flat_map (λ d, [(lower d.1 +:+ ".request.json", JObj []);
                               (lower d.1 +:+ ".schema.json", JObj [])])
                        notification_names))].

(** A bundle with the two calls and the one notification of the spec's
    scenarios. *)
Definition small_bundle : json :=
  JObj [("methods",
         JObj [("lightning-getinfo.json", call_schema);
               ("lightning-connect.json", call_schema)]);
        ("notifications",
         JObj [("block_added.request.json", JObj []);
               ("block_added.schema.json", JObj [])])].

(** A bundle whose only notification file is a request file. *)
Definition half_bundle : json :=
  JObj [("methods", JObj []);
        ("notifications", JObj [("ghost.request.json", JObj [])])].

Definition codec : JsonCodec :=
  table_codec [("{}", JObj []); ("call", call_schema);
               ("full", full_bundle); ("small", small_bundle);
               ("half", half_bundle)].

(** A process that has not called the getter yet. *)
Definition fresh (text : string) : process :=
  mkProcess (Some text) 0 0 None.

(** A schema directory [/doc/schemas] and a destination directory
    [/msggen]. *)
Definition schemas (notification : list (string * node)) : node :=
  Dir [("doc",
        Dir [("schemas",
              Dir [("lightning-sql.json", File "not json");
                   ("lightning-getinfo.json", File "call");
                   ("README.md", File "# schemas");
                   ("notification", Dir notification);
                   ("lightning-connect.json", File "call")])]);
       ("msggen", Dir [])].

Definition notification_files : list (string * node) :=
  [("block_added.schema.json", File "{}");
   ("block_added.request.json", File "{}")].

(** The same files, every directory enumerating them in the opposite
    order. *)
Definition schemas_reversed : node :=
  Dir [("msggen", Dir []);
       ("doc",
        Dir [("schemas",
              Dir [("lightning-connect.json", File "call");
                   ("notification", Dir (reverse notification_files));
                   ("README.md", File "# schemas");
                   ("lightning-getinfo.json", File "call");
                   ("lightning-sql.json", File "not json")])])].

(** A schema directory with a method file that does not parse. *)
Definition broken_schemas : node :=
  Dir [("doc",
        Dir [("schemas",
              Dir [("lightning-getinfo.json", File "{ not json");
                   ("notification", Dir notification_files)])]);
       ("msggen", Dir [])].

(** A notification directory with a file whose name ends in [json] but
    not in [.json]. *)
Definition stray_notification_files : list (string * node) :=
  ("xjson", File "{}") :: notification_files.

Definition schema_dir : path := ["doc"; "schemas"].
Definition dest : path := ["msggen"; "schema.json"].

(** The bundle of [schemas notification_files]. *)
Definition artifact : json :=
  JObj [("methods",
         JObj [("lightning-connect.json", call_schema);
               ("lightning-getinfo.json", call_schema)]);
        ("notifications",
         JObj [("block_added.request.json", JObj []);
               ("block_added.schema.json", JObj [])])].

(** A codec that reads back what it wrote for [artifact]. *)
Definition pipeline_codec : JsonCodec :=
  table_codec [("{}", JObj []); ("call", call_schema);
               (render 2 0 artifact, artifact)].

(** A notification directory with a file that does not parse and whose
    name ends in [json] but not in [.json]. *)
Definition unparsable_notification_files : list (string * node) :=
  ("xjson", File "not json") :: notification_files.

(** A schema directory with the same file among the method files. *)
Definition stray_method_schemas : node :=
  Dir [("doc",
        Dir [("schemas",
              Dir [("xjson", File "not json");
                   ("lightning-getinfo.json", File "call");
                   ("notification", Dir notification_files)])]);
       ("msggen", Dir [])].

(** A destination inside the schema directory. *)
Definition inner_dest : path := ["doc"; "schemas"; "bundle.json"].

(** How deep the arrays and objects of a document are nested. *)
Fixpoint depth (v : json) : nat :=
  match v with
  | JArr items => S (foldr Nat.max 0 (map depth items))
  | JObj members =>
      S (foldr Nat.max 0 (map (λ kv, let '(_, x) := kv in depth x) members))
  | _ => 0
  end.

(** A codec whose [json.dump] raises, as the encoder does at the recursion
    limit of the interpreter, on a document nested deeper than [limit]
    levels; the first [written] characters of the text are in the file by
    then. *)
Definition bounded_codec (limit written : nat) : JsonCodec :=
  {| json_loads := @json_loads codec;
     json_dumps indent doc := render indent 0 doc;
     json_dump_raises indent doc :=
       if decide (limit < depth doc)
       then Some (RecursionError, substring 0 written (render indent 0 doc))
       else None |}.

End Examples.

(** * Properties *)

(** ** The monad *)

Lemma mapR_Ok_Forall2 {A B} (f : A → result B) xs ys :
  mapR f xs = Ok ys ↔ Forall2 (λ x y, f x = Ok y) xs ys.
Proof.
  revert ys. induction xs as [|x xs IH]; intros ys; simpl.
  - split; [intros [= <-]; constructor | intros Hys; by inv Hys].
  - destruct (f x) as [y|e] eqn:Hx; simpl.
    + destruct (mapR f xs) as [zs|e] eqn:Hxs; simpl.
      * split.
        -- intros [= <-]. constructor; [done | by apply IH].
        -- intros Hys. inv Hys. f_equal.
           assert (Ok zs = Ok l') as [= ->] by (by apply IH).
           congruence.
      * split; [done|]. intros Hys. inv Hys.
        assert (@Raise (list B) e = Ok l') by (by apply IH). done.
    + split; [done|]. intros Hys. inv Hys. congruence.
Qed.

Lemma mapR_Ok_elem_of {A B} (f : A → result B) xs ys x :
  mapR f xs = Ok ys → x ∈ xs → ∃ y, f x = Ok y.
Proof.
  intros Hall%mapR_Ok_Forall2 [i Hi]%list_elem_of_lookup_1.
  destruct (Forall2_lookup_l _ _ _ _ _ Hall Hi) as (y & _ & Hy). by exists y.
Qed.

Lemma mapR_Raise {A B} (f : A → result B) xs e :
  mapR f xs = Raise e → ∃ x, x ∈ xs ∧ f x = Raise e.
Proof.
  induction xs as [|x xs IH]; simpl; [done|].
  destruct (f x) as [y|e'] eqn:Hx; simpl.
  - destruct (mapR f xs) as [zs|e'] eqn:Hxs; simpl; [done|].
    intros [= ->]. destruct IH as (x' & ? & ?); [done|].
    exists x'. split; [by right | done].
  - intros [= ->]. exists x. split; [by left | done].
Qed.

Lemma mapR_total {A B} (f : A → result B) xs :
  (∀ x, x ∈ xs → ∃ y, f x = Ok y) → ∃ ys, mapR f xs = Ok ys.
Proof.
  induction xs as [|x xs IH]; intros Hall; simpl; [by eexists|].
  destruct (Hall x) as [y ->]; [by left|].
  destruct IH as [ys ->]; [intros; apply Hall; by right|].
  by eexists.
Qed.

Lemma mapM_stable {S A B} (f : A → M S B) (g : A → result B) s :
  (∀ x, f x s = (g x, s)) → ∀ xs, mapM f xs s = (mapR g xs, s).
Proof.
  intros Hf xs. induction xs as [|x xs IH]; simpl; [done|].
  unfold bind at 1. rewrite Hf. destruct (g x) as [y|e]; simpl; [|done].
  unfold bind at 1. rewrite IH. by destruct (mapR g xs).
Qed.

(** ** Strings *)

Lemma list_ascii_of_string_app a b :
  list_ascii_of_string (a +:+ b)
  = list_ascii_of_string a ++ list_ascii_of_string b.
Proof. induction a as [|c a IH]; simpl; [done | by rewrite <-IH]. Qed.

Lemma list_ascii_of_string_inj a b :
  list_ascii_of_string a = list_ascii_of_string b → a = b.
Proof.
  intros Hab.
  rewrite <-(string_of_list_ascii_of_string a), Hab.
  apply string_of_list_ascii_of_string.
Qed.

Lemma append_suffix_inj suffix a b : a +:+ suffix = b +:+ suffix → a = b.
Proof.
  intros Hab. apply list_ascii_of_string_inj.
  apply (f_equal list_ascii_of_string) in Hab.
  rewrite !list_ascii_of_string_app in Hab.
  by apply app_inv_tail in Hab.
Qed.

Lemma Request_ne_Response a b : a +:+ "Request" ≠ b +:+ "Response".
Proof.
  intros Hab. apply (f_equal list_ascii_of_string) in Hab.
  rewrite !list_ascii_of_string_app in Hab.
  apply (f_equal (@rev ascii)) in Hab.
  rewrite !rev_app_distr in Hab. simpl in Hab. discriminate Hab.
Qed.

(** ** The bundle cache and the loaders *)

Section LoaderFacts.
Context `{JsonCodec} `{TypeModel}.

Lemma get_schema_bundle_hit s o :
  cache s = Some o → get_schema_bundle s = (Ok o, s).
Proof. intros Hc. unfold get_schema_bundle, lru_cache. by rewrite Hc. Qed.

Lemma get_schema_bundle_fills s o s1 :
  get_schema_bundle s = (Ok o, s1) → cache s1 = Some o.
Proof.
  unfold get_schema_bundle, lru_cache. destruct (cache s) eqn:Hc.
  - by intros [= <- <-].
  - destruct (get_schema_bundle_body s) as [[o'|e] s']; [|done].
    by intros [= <- <-].
Qed.

Lemma get_schema_bundle_again s o s1 :
  get_schema_bundle s = (Ok o, s1) → get_schema_bundle s1 = (Ok o, s1).
Proof. intros Hg. eapply get_schema_bundle_hit, get_schema_bundle_fills, Hg. Qed.

Lemma load_jsonrpc_method_run name s o s1 :
  get_schema_bundle s = (Ok o, s1) →
  load_jsonrpc_method name s = (method_from_schema (value o) name, s1).
Proof. intros Hg. unfold load_jsonrpc_method, bind. by rewrite Hg. Qed.

Lemma load_notification_run name tn s o s1 :
  get_schema_bundle s = (Ok o, s1) →
  load_notification name tn s
  = (notification_from_schema (value o) name tn, s1).
Proof. intros Hg. unfold load_notification, bind. by rewrite Hg. Qed.

Lemma load_jsonrpc_method_bundle_error name s e s1 :
  get_schema_bundle s = (Raise e, s1) →
  load_jsonrpc_method name s = (Raise e, s1).
Proof. intros Hg. unfold load_jsonrpc_method, bind. by rewrite Hg. Qed.

Lemma load_jsonrpc_method_inv name s m s1 :
  load_jsonrpc_method name s = (Ok m, s1) →
  ∃ o, get_schema_bundle s = (Ok o, s1)
       ∧ method_from_schema (value o) name = Ok m.
Proof.
  unfold load_jsonrpc_method, bind.
  destruct (get_schema_bundle s) as [[o|e] s'] eqn:Hg; [|done].
  unfold lift. intros [= Hm <-]. by exists o.
Qed.

(** What a loaded method is made of. *)
Lemma method_from_schema_Ok schema name m :
  method_from_schema schema name = Ok m →
  ∃ rq_js rs_js rq rs,
    from_js rq_js name = Ok rq ∧ from_js rs_js name = Ok rs
    ∧ m = mkMethod name
            (set_typename (TypeName_iadd (typename rq) "Request") rq)
            (set_typename (TypeName_iadd (typename rs) "Response") rs).
Proof.
  unfold method_from_schema.
  destruct (getitem schema "methods") as [ms|?]; simpl; [|done].
  destruct (getitem ms _) as [entry|?]; simpl; [|done].
  destruct (getitem entry "request") as [rq_js|?]; simpl; [|done].
  destruct (from_js rq_js name) as [rq|?] eqn:Hrq; simpl; [|done].
  destruct (getitem entry "response") as [rs_js|?]; simpl; [|done].
  destruct (from_js rs_js name) as [rs|?] eqn:Hrs; simpl; [|done].
  intros [= <-]. by exists rq_js, rs_js, rq, rs.
Qed.


(** The loaders over a list of names, once the bundle is there: the first
    call fills the cache and none changes the process after that. *)
Lemma mapM_load_jsonrpc_method s o s1 names :
  get_schema_bundle s = (Ok o, s1) → names ≠ [] →
  mapM load_jsonrpc_method names s
  = (mapR (method_from_schema (value o)) names, s1).
Proof.
  intros Hg Hne. destruct names as [|n names]; [done|]. simpl.
  unfold bind at 1. rewrite (load_jsonrpc_method_run _ _ _ _ Hg).
  destruct (method_from_schema (value o) n) as [m|e]; simpl; [|done].
  unfold bind at 1.
  rewrite (mapM_stable _ (method_from_schema (value o))).
  - by destruct (mapR _ names).
  - intros x. apply load_jsonrpc_method_run. by eapply get_schema_bundle_again.
Qed.

Lemma mapM_load_notification o s1 (names : list (string * string)) :
  cache s1 = Some o →
  mapM (λ d, load_notification d.1 d.2) names s1
  = (mapR (λ d, notification_from_schema (value o) d.1 d.2) names, s1).
Proof.
  intros Hc. apply mapM_stable. intros d.
  by apply load_notification_run, get_schema_bundle_hit.
Qed.

(** The service assembler in terms of the loaders' pure parts. *)
Lemma load_jsonrpc_service_run s o s1 :
  get_schema_bundle s = (Ok o, s1) →
  load_jsonrpc_service s
  = ((methods <- mapR (method_from_schema (value o)) method_names;;
      notifications <-
        mapR (λ d, notification_from_schema (value o) d.1 d.2)
             notification_names;;
      Ok (mkService "Node" methods notifications ["primitives.proto"]))%res,
     s1).
Proof.
  intros Hg. unfold load_jsonrpc_service. unfold bind at 1.
  rewrite (mapM_load_jsonrpc_method _ _ _ _ Hg); [|done].
  destruct (mapR _ method_names) as [ms|e]; cbn [rbind]; [|done].
  unfold bind at 1.
  rewrite (mapM_load_notification o); [|by eapply get_schema_bundle_fills].
  by destruct (mapR _ notification_names).
Qed.

Lemma load_jsonrpc_service_bundle_error s e s1 :
  get_schema_bundle s = (Raise e, s1) →
  load_jsonrpc_service s = (Raise e, s1).
Proof.
  intros Hg. unfold load_jsonrpc_service. unfold bind at 1. simpl.
  unfold bind at 1. by rewrite (load_jsonrpc_method_bundle_error _ _ _ _ Hg).
Qed.

Lemma load_jsonrpc_service_inv s svc s1 :
  load_jsonrpc_service s = (Ok svc, s1) →
  ∃ o ms ns,
    get_schema_bundle s = (Ok o, s1)
    ∧ mapR (method_from_schema (value o)) method_names = Ok ms
    ∧ mapR (λ d, notification_from_schema (value o) d.1 d.2)
           notification_names = Ok ns
    ∧ svc = mkService "Node" ms ns ["primitives.proto"].
Proof.
  destruct (get_schema_bundle s) as [[o|e] s'] eqn:Hg.
  - rewrite (load_jsonrpc_service_run _ _ _ Hg).
    destruct (mapR _ method_names) as [ms|?] eqn:Hms; cbn [rbind]; [|done].
    destruct (mapR _ notification_names) as [ns|?] eqn:Hns; cbn [rbind];
      [|done].
    intros [= <- <-]. by exists o, ms, ns.
  - by rewrite (load_jsonrpc_service_bundle_error _ _ _ Hg).
Qed.
End LoaderFacts.


Lemma Forall2_fmap_eq {A B C} (f : A → C) (g : B → C) xs ys :
  Forall2 (λ x y, g y = f x) xs ys → g <$> ys = f <$> xs.
Proof. induction 1; simpl; [done | by f_equal]. Qed.

#[local] Instance suffixed_TypeName_inj suffix :
  Inj (=) (=) (λ n, mkTypeName (n +:+ suffix)).
Proof. intros a b [= Hab]. by eapply append_suffix_inj. Qed.

Lemma method_keys_NoDup : NoDup (lower <$> method_names).
Proof. apply (bool_decide_unpack _). by vm_compute. Qed.

(** The type names of a loaded service when the builder names a tree by a
    function [path2type] of its path that tells the manifest's names
    apart. *)
Lemma service_typenames_NoDup `{JsonCodec} `{TypeModel}
    (path2type : string → string) s svc s1 :
  (∀ js path c, from_js js path = Ok c →
                typename c = mkTypeName (path2type path)) →
  NoDup (path2type <$> method_names) →
  load_jsonrpc_service s = (Ok svc, s1) →
  NoDup (((λ m, typename (m_request m)) <$> s_methods svc)
         ++ ((λ m, typename (m_response m)) <$> s_methods svc)).
Proof.
  intros Hnames Hnd (o & ms & ns & _ & Hms & _ & ->)%load_jsonrpc_service_inv.
  simpl. apply mapR_Ok_Forall2 in Hms.
  assert (Forall2 (λ n m,
            typename (m_request m) = mkTypeName (path2type n +:+ "Request")
            ∧ typename (m_response m)
              = mkTypeName (path2type n +:+ "Response"))
            method_names ms) as Hall.
  { eapply Forall2_impl; [exact Hms|]. intros n m Hm. simpl in Hm.
    apply method_from_schema_Ok in Hm as (? & ? & rq & rs & Hq & Hs & ->).
    simpl. unfold TypeName_iadd.
    by rewrite (Hnames _ _ _ Hq), (Hnames _ _ _ Hs). }
  rewrite (Forall2_fmap_eq (λ n, mkTypeName (path2type n +:+ "Request"))
             _ method_names ms),
    (Forall2_fmap_eq (λ n, mkTypeName (path2type n +:+ "Response"))
       _ method_names ms).
  - rewrite (list_fmap_compose path2type (λ x, mkTypeName (x +:+ "Request"))),
      (list_fmap_compose path2type (λ x, mkTypeName (x +:+ "Response"))).
    apply NoDup_app. split; [|split].
    + by apply (NoDup_fmap_2 _).
    + intros t (a & -> & _)%list_elem_of_fmap (b & [= Hab] & _)%list_elem_of_fmap.
      by apply Request_ne_Response in Hab.
    + by apply (NoDup_fmap_2 _).
  - eapply Forall2_impl; [exact Hall|]. by intros ?? [_ ?].
  - eapply Forall2_impl; [exact Hall|]. by intros ?? [? _].
Qed.

(** The same for a builder that changes at most the case of the letters of
    the path: the manifest's names differ in more than case. *)
Lemma service_typenames_NoDup_up_to_case `{JsonCodec} `{TypeModel}
    (path2type : string → string) s svc s1 :
  (∀ js path c, from_js js path = Ok c →
                typename c = mkTypeName (path2type path)) →
  (∀ path, lower (path2type path) = lower path) →
  load_jsonrpc_service s = (Ok svc, s1) →
  NoDup (((λ m, typename (m_request m)) <$> s_methods svc)
         ++ ((λ m, typename (m_response m)) <$> s_methods svc)).
Proof.
  intros Hnames Hcase. apply (service_typenames_NoDup path2type); [done|].
  apply (NoDup_fmap_1 lower). rewrite <-list_fmap_compose.
  rewrite (list_fmap_ext (lower ∘ path2type) lower method_names)
    by (intros _ p _; apply Hcase).
  apply method_keys_NoDup.
Qed.





(** C3: with the bundle loaded, [load_jsonrpc_method] raises the
    [KeyError] of the key [lightning-<lowercased name>.json] when the
    methods mapping lacks it; [load_notification] raises the [KeyError] of
    [<lowercased name>.request.json] when the notifications mapping lacks
    it, and that of [<lowercased name>.schema.json] when the mapping lacks
    it and the request tree was built; whenever either key is missing the
    loader raises and returns no Notification. *)
Theorem load_missing_key_raises `{JsonCodec} `{TypeModel} s o s1 :
  get_schema_bundle s = (Ok o, s1) →
  (∀ name methods,
     getitem (value o) "methods" = Ok (JObj methods) →
     dict_get ("lightning-" +:+ lower name +:+ ".json") methods = None →
     load_jsonrpc_method name s
     = (Raise (KeyError ("lightning-" +:+ lower name +:+ ".json")), s1))
  ∧ (∀ name tn ns,
       getitem (value o) "notifications" = Ok (JObj ns) →
       (dict_get (lower name +:+ ".request.json") ns = None →
        load_notification name tn s
        = (Raise (KeyError (lower name +:+ ".request.json")), s1))
       ∧ (∀ js rq,
            dict_get (lower name +:+ ".request.json") ns = Some js →
            from_js js name = Ok rq →
            dict_get (lower name +:+ ".schema.json") ns = None →
            load_notification name tn s
            = (Raise (KeyError (lower name +:+ ".schema.json")), s1))
       ∧ (dict_get (lower name +:+ ".request.json") ns = None
          ∨ dict_get (lower name +:+ ".schema.json") ns = None →
          ∃ e, load_notification name tn s = (Raise e, s1))).
Proof.
  intros Hg. split.
  - intros name methods Hms Hnone.
    rewrite (load_jsonrpc_method_run _ _ _ _ Hg).
    unfold method_from_schema. rewrite Hms. cbn [rbind getitem].
    by rewrite Hnone.
  - intros name tn ns Hns.
    rewrite (load_notification_run _ _ _ _ _ Hg).
    unfold notification_from_schema. rewrite Hns. cbn [rbind getitem].
    split; [|split].
    + by intros ->.
    + intros js rq -> Hrq ->. cbn [rbind]. by rewrite Hrq.
    + destruct (dict_get (lower name +:+ ".request.json") ns) as [js|];
        cbn [rbind]; [|by eexists].
      destruct (from_js js name) as [rq|e]; cbn [rbind]; [|by eexists].
      intros [?| ->]; [done|]. cbn [rbind]. by eexists.
Qed.

Lemma load_missing_key_raises_witness :
  @load_jsonrpc_method Examples.codec Examples.path_named_model
    "DoesNotExist" (Examples.fresh "small")
  = (Raise (KeyError "lightning-doesnotexist.json"),
     mkProcess (Some "small") 1 1 (Some (mkObject 0 Examples.small_bundle)))
  ∧ @load_notification Examples.codec Examples.path_named_model
      "ghost" "Ghost" (Examples.fresh "small")
    = (Raise (KeyError "ghost.request.json"),
       mkProcess (Some "small") 1 1 (Some (mkObject 0 Examples.small_bundle))).
Proof.
  destruct (@load_missing_key_raises
              Examples.codec Examples.path_named_model
              (Examples.fresh "small") (mkObject 0 Examples.small_bundle)
              (mkProcess (Some "small") 1 1
                 (Some (mkObject 0 Examples.small_bundle)))
              eq_refl) as [Hm Hn].
  split.
  - exact (Hm "DoesNotExist" _ eq_refl eq_refl).
  - exact (proj1 (Hn "ghost" "Ghost" _ eq_refl) eq_refl).
Defined.

(** The request tree is built before the schema key is looked up: a builder
    that rejects the request subtree ends the load with its own exception,
    also when the schema key is missing. *)
Lemma load_notification_builder_raises_first :
  (@load_notification Examples.codec Examples.rejecting_model
     "ghost" "Ghost" (Examples.fresh "half")).1
  = Raise (SchemaShapeError "unsupported")
  ∧ (@load_notification Examples.codec Examples.path_named_model
       "ghost" "Ghost" (Examples.fresh "half")).1
    = Raise (KeyError "ghost.schema.json").
Proof. split; reflexivity. Qed.

(** C3 as it was claimed, that a missing key always ends the load with a
    lookup error, does not hold. The bundle [half_bundle] has the key
    [ghost.request.json] and lacks [ghost.schema.json]; with a builder that
    rejects the request subtree, [load_notification "ghost" "Ghost"] ends
    with the builder's exception, which is no [KeyError]. *)
Lemma load_notification_missing_key_counterexample :
  ∃ o s1 ns,
    @get_schema_bundle Examples.codec (Examples.fresh "half") = (Ok o, s1)
    ∧ getitem (value o) "notifications" = Ok (JObj ns)
    ∧ dict_get (lower "ghost" +:+ ".request.json") ns = Some (JObj [])
    ∧ dict_get (lower "ghost" +:+ ".schema.json") ns = None
    ∧ @load_notification Examples.codec Examples.rejecting_model
        "ghost" "Ghost" (Examples.fresh "half")
      = (Raise (SchemaShapeError "unsupported"), s1)
    ∧ ∀ key, @load_notification Examples.codec Examples.rejecting_model
               "ghost" "Ghost" (Examples.fresh "half")
             ≠ (Raise (KeyError key), s1).
Proof.
  exists (mkObject 0 Examples.half_bundle),
         (mkProcess (Some "half") 1 1
            (Some (mkObject 0 Examples.half_bundle))),
         [("ghost.request.json", JObj [])].
  repeat split; try reflexivity.
  intros key Hkey. vm_compute in Hkey. discriminate Hkey.
Qed.

(** The undecorated body parses again on every call: two calls in a row
    return two objects. *)
Lemma get_schema_bundle_body_allocates `{JsonCodec} s o1 s1 o2 s2 :
  get_schema_bundle_body s = (Ok o1, s1) →
  get_schema_bundle_body s1 = (Ok o2, s2) →
  oid o1 ≠ oid o2 ∧ opens s2 = S (S (opens s)).
Proof.
  unfold get_schema_bundle_body, bind, open_text, json_load_object.
  destruct (resource s) as [text|] eqn:Hr; [|done]. simpl.
  destruct (json_loads text) as [doc|]; [|done].
  intros [= <- <-]. simpl.
  destruct (json_loads text) as [doc'|]; [|done].
  intros [= <- <-]. simpl. split; [lia | done].
Qed.

(** C4: after a call of [get_schema_bundle] that returned an object, any
    number of further calls return that same object and leave the process
    as it is, the count of opened resources included, whatever has become
    of the stored artifact in between, also when it can no longer be
    opened. *)
Theorem get_schema_bundle_memoised `{JsonCodec} s o s1 :
  get_schema_bundle s = (Ok o, s1) →
  ∀ r n,
    get_schema_bundle_times n (with_resource r s1)
    = (Ok (replicate n o), with_resource r s1).
Proof.
  intros Hg r n. unfold get_schema_bundle_times.
  rewrite (mapM_stable _ (λ _, Ok o)).
  - f_equal. induction n as [|n IH]; simpl; [done | by rewrite IH].
  - intros _. apply get_schema_bundle_hit. simpl.
    by eapply get_schema_bundle_fills.
Qed.

Lemma get_schema_bundle_memoised_witness :
  @get_schema_bundle_times Examples.codec 2
    (mkProcess None 1 1 (Some (mkObject 0 Examples.small_bundle)))
  = (Ok [mkObject 0 Examples.small_bundle; mkObject 0 Examples.small_bundle],
     mkProcess None 1 1 (Some (mkObject 0 Examples.small_bundle))).
Proof.
  exact (@get_schema_bundle_memoised Examples.codec
           (Examples.fresh "small") (mkObject 0 Examples.small_bundle)
           (mkProcess (Some "small") 1 1
              (Some (mkObject 0 Examples.small_bundle)))
           eq_refl None 2).
Defined.

Lemma notification_from_schema_Ok `{JsonCodec} `{TypeModel} schema name tn x :
  notification_from_schema schema name tn = Ok x →
  n_name x = name ∧ n_typename x = mkTypeName tn.
Proof.
  unfold notification_from_schema.
  destruct (getitem schema "notifications") as [ns|?]; cbn [rbind]; [|done].
  destruct (getitem ns (lower name +:+ ".request.json")) as [a|?];
    cbn [rbind]; [|done].
  destruct (from_js a name) as [rq|?]; cbn [rbind]; [|done].
  destruct (getitem ns (lower name +:+ ".schema.json")) as [b|?];
    cbn [rbind]; [|done].
  destruct (from_js b name) as [rs|?]; cbn [rbind]; [|done].
  by intros [= <-].
Qed.

(** C9: a failure to get the bundle is the failure of the assembler. With
    the bundle loaded: if the loader of every manifest entry returns, the
    assembler returns a Service whose methods are, name by name and in the
    order of [method_names], what [load_jsonrpc_method] returns, whose
    notifications are, descriptor by descriptor and in the order of
    [notification_names], what [load_notification] returns, and whose
    includes are [primitives.proto] alone; if some loader raises, the
    assembler raises the exception of a loader and returns no Service. *)
Theorem load_jsonrpc_service_assembles `{JsonCodec} `{TypeModel} s :
  match get_schema_bundle s with
  | (Raise e, s1) => load_jsonrpc_service s = (Raise e, s1)
  | (Ok o, s1) =>
      ((∀ n, n ∈ method_names →
             ∃ m, load_jsonrpc_method n s1 = (Ok m, s1)) →
       (∀ d, d ∈ notification_names →
             ∃ x, load_notification d.1 d.2 s1 = (Ok x, s1)) →
       ∃ svc,
         load_jsonrpc_service s = (Ok svc, s1)
         ∧ Forall2 (λ n m, load_jsonrpc_method n s1 = (Ok m, s1) ∧ m_name m = n)
                   method_names (s_methods svc)
         ∧ Forall2 (λ d x, load_notification d.1 d.2 s1 = (Ok x, s1)
                           ∧ n_name x = d.1 ∧ n_typename x = mkTypeName d.2)
                   notification_names (s_notifications svc)
         ∧ s_includes svc = ["primitives.proto"])
      ∧ ((∃ n e, n ∈ method_names ∧ load_jsonrpc_method n s1 = (Raise e, s1))
         ∨ (∃ d e, d ∈ notification_names
                   ∧ load_notification d.1 d.2 s1 = (Raise e, s1)) →
         ∃ e,
           load_jsonrpc_service s = (Raise e, s1)
           ∧ ((∃ n, n ∈ method_names
                    ∧ load_jsonrpc_method n s1 = (Raise e, s1))
              ∨ (∃ d, d ∈ notification_names
                      ∧ load_notification d.1 d.2 s1 = (Raise e, s1))))
  end.
Proof.
  destruct (get_schema_bundle s) as [[o|e] s1] eqn:Hg;
    [|by apply load_jsonrpc_service_bundle_error].
  pose proof (get_schema_bundle_again _ _ _ Hg) as Hg1.
  assert (∀ n, load_jsonrpc_method n s1
               = (method_from_schema (value o) n, s1)) as Hm
    by (intros; by apply load_jsonrpc_method_run).
  assert (∀ d : string * string,
            load_notification d.1 d.2 s1
            = (notification_from_schema (value o) d.1 d.2, s1)) as Hn
    by (intros; by apply load_notification_run).
  rewrite (load_jsonrpc_service_run _ _ _ Hg).
  destruct (mapR (method_from_schema (value o)) method_names)
    as [ms|e] eqn:Hms; cbn [rbind].
  - destruct (mapR (λ d, notification_from_schema (value o) d.1 d.2)
                notification_names) as [ns|e] eqn:Hns; cbn [rbind].
    + pose proof (λ x, mapR_Ok_elem_of _ _ _ x Hms) as Hms_ok.
      pose proof (λ x, mapR_Ok_elem_of _ _ _ x Hns) as Hns_ok.
      apply mapR_Ok_Forall2 in Hms, Hns. split.
      * intros _ _. eexists. split; [reflexivity|]. cbn [s_methods s_notifications s_includes].
        split; [|split; [|done]].
        -- eapply Forall2_impl; [exact Hms|]. intros n m Hnm. cbn beta in Hnm.
           rewrite Hm, Hnm. split; [done|].
           by apply method_from_schema_Ok in Hnm as (? & ? & ? & ? & _ & _ & ->).
        -- eapply Forall2_impl; [exact Hns|]. intros d x Hdx. cbn beta in Hdx.
           rewrite Hn, Hdx. split; [done|].
           by apply notification_from_schema_Ok in Hdx.
      * intros [(n & e & Hin & He)|(d & e & Hin & He)]; exfalso.
        -- rewrite Hm in He. destruct (Hms_ok n Hin) as [m Hok]. congruence.
        -- rewrite Hn in He. destruct (Hns_ok d Hin) as [x Hok].
           cbn beta in Hok. congruence.
    + split.
      * intros _ Hall. exfalso.
        apply mapR_Raise in Hns as (d & Hin & Hd).
        destruct (Hall d Hin) as [x Hx]. rewrite Hn in Hx. congruence.
      * intros _. exists e. split; [done|]. right.
        apply mapR_Raise in Hns as (d & Hin & Hd).
        exists d. split; [done|]. rewrite Hn. by rewrite Hd.
  - split.
    + intros Hall _. exfalso.
      apply mapR_Raise in Hms as (n & Hin & Hd).
      destruct (Hall n Hin) as [x Hx]. rewrite Hm in Hx. congruence.
    + intros _. exists e. split; [done|]. left.
      apply mapR_Raise in Hms as (n & Hin & Hd).
      exists n. split; [done|]. rewrite Hm. by rewrite Hd.
Qed.

Lemma full_bundle_loads :
  @get_schema_bundle Examples.codec (Examples.fresh "full")
  = (Ok (mkObject 0 Examples.full_bundle),
     mkProcess (Some "full") 1 1 (Some (mkObject 0 Examples.full_bundle))).
Proof. reflexivity. Qed.

Lemma load_jsonrpc_service_assembles_witness :
  ∃ svc s1,
    @load_jsonrpc_service Examples.codec Examples.path_named_model
      (Examples.fresh "full") = (Ok svc, s1)
    ∧ m_name <$> s_methods svc = method_names
    ∧ n_name <$> s_notifications svc = notification_names.*1
    ∧ s_includes svc = ["primitives.proto"].
Proof.
  pose proof (@load_jsonrpc_service_assembles
                Examples.codec Examples.path_named_model
                (Examples.fresh "full")) as Hthm.
  rewrite full_bundle_loads in Hthm. destruct Hthm as [Hok _].
  destruct Hok as (svc & Hsvc & Hms & Hns & Hinc).
  - apply Forall_forall.
    repeat (constructor; [eexists; reflexivity|]). constructor.
  - apply Forall_forall.
    repeat (constructor; [eexists; reflexivity|]). constructor.
  - exists svc, (mkProcess (Some "full") 1 1
                   (Some (mkObject 0 Examples.full_bundle))).
    split; [exact Hsvc|]. split; [|split; [|exact Hinc]].
    + rewrite <-(list_fmap_id method_names).
      apply Forall2_fmap_eq. eapply Forall2_impl; [exact Hms|].
      by intros ?? [_ ?].
    + apply Forall2_fmap_eq. eapply Forall2_impl; [exact Hns|].
      by intros ?? (_ & ? & _).
Defined.

(** C10: [load_jsonrpc_service] takes the process alone; whenever it
    returns, the Service is named [Node] and has 96 methods and 5
    notifications, whatever the bundle holds. *)
Theorem load_jsonrpc_service_shape `{JsonCodec} `{TypeModel} s svc s1 :
  load_jsonrpc_service s = (Ok svc, s1) →
  s_name svc = "Node"
  ∧ length (s_methods svc) = 96
  ∧ length (s_notifications svc) = 5.
Proof.
  intros (o & ms & ns & _ & Hms & Hns & ->)%load_jsonrpc_service_inv.
  apply mapR_Ok_Forall2, Forall2_length in Hms, Hns.
  cbn [s_name s_methods s_notifications]. by rewrite <-Hms, <-Hns.
Qed.

Lemma load_jsonrpc_service_shape_witness :
  ∃ svc s1,
    @load_jsonrpc_service Examples.codec Examples.path_named_model
      (Examples.fresh "full") = (Ok svc, s1)
    ∧ s_name svc = "Node"
    ∧ length (s_methods svc) = 96
    ∧ length (s_notifications svc) = 5.
Proof.
  destruct (@load_jsonrpc_service Examples.codec Examples.path_named_model
              (Examples.fresh "full")) as [[svc|e] s1] eqn:Hsvc.
  - exists svc, s1. split; [reflexivity|].
    exact (@load_jsonrpc_service_shape
             Examples.codec Examples.path_named_model _ _ _ Hsvc).
  - vm_compute in Hsvc. discriminate Hsvc.
Defined.

(** ** Dictionaries *)

Section Dict.
Context {V : Type}.
Implicit Types (d : list (string * V)) (k : string) (v : V).

Lemma dict_get_Some_elem_of k v d : dict_get k d = Some v → (k, v) ∈ d.
Proof.
  induction d as [|[k' v'] d IH]; simpl; [done|].
  destruct (String.eqb_spec k k') as [->|Hne].
  - intros [= ->]. by left.
  - intros Hd. right. by apply IH.
Qed.

Lemma dict_get_None k d : dict_get k d = None ↔ k ∉ d.*1.
Proof.
  induction d as [|[k' v'] d IH]; simpl.
  - split; [intros _; by apply not_elem_of_nil | done].
  - destruct (String.eqb_spec k k') as [->|Hne].
    + split; [done|]. intros []. by left.
    + rewrite IH, not_elem_of_cons. split; [by split | by intros [_ ?]].
Qed.

Lemma dict_get_elem_of k v d : NoDup d.*1 → (k, v) ∈ d → dict_get k d = Some v.
Proof.
  induction d as [|[k' v'] d IH]; simpl; intros Hnd Hin;
    [by apply elem_of_nil in Hin|].
  apply NoDup_cons in Hnd as [Hk' Hnd].
  destruct (String.eqb_spec k k') as [->|Hne].
  - apply elem_of_cons in Hin as [[= ->]|Hin]; [done|].
    destruct Hk'. apply list_elem_of_fmap. by exists (k', v).
  - apply elem_of_cons in Hin as [[= -> ->]|Hin]; [done | by apply IH].
Qed.

Lemma dict_get_Permutation k d1 d2 :
  NoDup d1.*1 → d1 ≡ₚ d2 → dict_get k d1 = dict_get k d2.
Proof.
  intros Hnd Hp.
  assert (NoDup d2.*1) as Hnd2 by (by rewrite <-Hp).
  destruct (dict_get k d1) as [v|] eqn:H1.
  - symmetry. apply dict_get_elem_of; [done|].
    rewrite <-Hp. by apply dict_get_Some_elem_of.
  - destruct (dict_get k d2) as [v|] eqn:H2; [|done].
    apply dict_get_Some_elem_of in H2. rewrite <-Hp in H2.
    apply (dict_get_elem_of _ _ _ Hnd) in H2. congruence.
Qed.

Lemma dict_set_fresh k v d : k ∉ d.*1 → dict_set k v d = d ++ [(k, v)].
Proof.
  induction d as [|[k' v'] d IH]; simpl; [done|].
  rewrite not_elem_of_cons. intros [Hne Hk].
  destruct (String.eqb_spec k k') as [->|_]; [done|]. by rewrite IH.
Qed.

Lemma dict_get_set k v d : dict_get k (dict_set k v d) = Some v.
Proof.
  induction d as [|[k' v'] d IH]; simpl.
  - by rewrite String.eqb_refl.
  - destruct (String.eqb_spec k k') as [->|Hne]; simpl.
    + by rewrite String.eqb_refl.
    + by destruct (String.eqb_spec k k').
Qed.
Lemma dict_get_set_ne k k' v d :
  k ≠ k' → dict_get k (dict_set k' v d) = dict_get k d.
Proof.
  intros Hne. induction d as [|[k1 v1] d IH]; simpl.
  - by destruct (String.eqb_spec k k').
  - destruct (String.eqb_spec k' k1) as [->|Hne1]; simpl.
    + by destruct (String.eqb_spec k k1).
    + by rewrite IH.
Qed.

Lemma dict_set_overwrite k v v' d :
  dict_set k v' (dict_set k v d) = dict_set k v' d.
Proof.
  induction d as [|[k1 v1] d IH]; simpl.
  - by rewrite String.eqb_refl.
  - destruct (String.eqb_spec k k1) as [->|Hne]; simpl.
    + by rewrite String.eqb_refl.
    + destruct (String.eqb_spec k k1); [done | by rewrite IH].
Qed.

Lemma dict_set_set k v d : dict_set k v (dict_set k v d) = dict_set k v d.
Proof.
  induction d as [|[k1 v1] d IH]; simpl.
  - by rewrite String.eqb_refl.
  - destruct (String.eqb_spec k k1) as [->|Hne]; simpl.
    + by rewrite String.eqb_refl.
    + destruct (String.eqb_spec k k1); [done | by rewrite IH].
Qed.
End Dict.

(** ** Paths and their order *)

Lemma name_app dir k : name (dir ++ [k]) = k.
Proof. apply last_last. Qed.

Lemma resolve_app fs p q :
  resolve fs (p ++ q) = resolve fs p ≫= λ t, resolve t q.
Proof.
  revert fs. induction p as [|c p IH]; intros fs; simpl; [done|].
  destruct fs as [|es]; [done|]. destruct (dict_get c es); [apply IH | done].
Qed.

Lemma resolve_child fs dir es k :
  resolve fs dir = Some (Dir es) → resolve fs (dir ++ [k]) = dict_get k es.
Proof.
  intros Hd. rewrite resolve_app, Hd. simpl. by destruct (dict_get k es).
Qed.

(** Two components that differ and are below each other. *)
Ltac string_order_clash :=
  exfalso;
  match goal with
  | Hne : ?a ≠ ?b |- _ => apply Hne; by apply (anti_symm String.le)
  end.

#[global] Instance path_le_total : Total path_le.
Proof.
  intros p. induction p as [|a p IH]; intros [|b q]; simpl; auto.
  repeat case_decide; simplify_eq; [apply IH | apply (total String.le)].
Qed.

#[global] Instance path_le_trans : Transitive path_le.
Proof.
  intros p. induction p as [|a p IH]; intros [|b q] [|c r]; simpl; try done.
  repeat case_decide; simplify_eq; try done.
  - apply IH.
  - intros ??. string_order_clash.
  - intros ??. by trans b.
Qed.

#[global] Instance path_le_antisymm : AntiSymm (=) path_le.
Proof.
  intros p. induction p as [|a p IH]; intros [|b q]; simpl; try done.
  repeat case_decide; simplify_eq.
  - intros ??. f_equal. by apply IH.
  - intros ??. string_order_clash.
Qed.

Lemma path_le_siblings dir a b :
  path_le (dir ++ [a]) (dir ++ [b]) ↔ String.le a b.
Proof.
  induction dir as [|c dir IH]; simpl.
  - destruct (decide (a = b)) as [->|]; [|done].
    split; [intros _; reflexivity | done].
  - by rewrite decide_True.
Qed.

Lemma sorted_Permutation ps : sorted ps ≡ₚ ps.
Proof. apply merge_sort_Permutation. Qed.

Lemma sorted_StronglySorted ps : StronglySorted path_le (sorted ps).
Proof. apply StronglySorted_merge_sort; apply _. Qed.

(** [sorted] does not depend on the order of its argument. *)
Lemma sorted_proper ps1 ps2 : ps1 ≡ₚ ps2 → sorted ps1 = sorted ps2.
Proof.
  intros Hp. apply (StronglySorted_unique path_le);
    [apply sorted_StronglySorted..|].
  by rewrite !sorted_Permutation.
Qed.

(** ** The bundler *)

(** Whether and where a file can be written does not depend on what is
    written, and a second write replaces the first. *)
Lemma write_node_Raise_any fs p data data' e :
  write_node fs p data = Raise e → write_node fs p data' = Raise e.
Proof.
  revert fs. induction p as [|c p IH]; intros fs; simpl; [done|].
  destruct fs as [|es]; [done|]. destruct p as [|c' p].
  - by destruct (dict_get c es) as [[]|].
  - destruct (dict_get c es) as [child|]; [|done].
    destruct (write_node child (c' :: p) data) as [child'|e'] eqn:Hw; [done|].
    cbn [rbind]. intros [= ->]. by rewrite (IH child Hw).
Qed.

Lemma write_node_overwrite fs p data fs0 data' :
  write_node fs p data = Ok fs0 →
  write_node fs0 p data' = write_node fs p data'.
Proof.
  revert fs fs0. induction p as [|c p IH]; intros fs fs0; simpl; [done|].
  destruct fs as [|es]; [done|]. destruct p as [|c' p].
  - assert (write_node (Dir (dict_set c (File data) es)) [c] data'
            = Ok (Dir (dict_set c (File data') es))) as Hagain
      by (simpl; by rewrite dict_get_set, dict_set_overwrite).
    destruct (dict_get c es) as [[]|]; intros [= <-]; done.
  - destruct (dict_get c es) as [child|]; [|done].
    destruct (write_node child (c' :: p) data) as [child'|] eqn:Hw; [|done].
    cbn [rbind]. intros [= <-]. rewrite dict_get_set.
    rewrite (IH child child' Hw).
    destruct (write_node child (c' :: p) data') as [child''|]; [|done].
    cbn [rbind]. by rewrite dict_set_overwrite.
Qed.

Section BundlerFacts.
Context `{JsonCodec}.

Lemma json_load_run f fs : json_load f fs = (read_doc (resolve fs f), fs).
Proof.
  unfold json_load, bind, read_text, read_doc.
  destruct (resolve fs f) as [[data|es]|]; try done.
  by destruct (json_loads data).
Qed.

Lemma parse_files_run skip files acc fs :
  parse_files skip files acc fs
  = (collect skip (λ f, read_doc (resolve fs f)) files acc, fs).
Proof.
  revert acc. induction files as [|f files IH]; intros acc; simpl; [done|].
  destruct (skip (name f)); [apply IH|].
  unfold bind. rewrite json_load_run.
  destruct (read_doc (resolve fs f)) as [doc|e]; simpl; [apply IH | done].
Qed.

(** The loop reads the files it does not skip, and no other. *)
Lemma collect_ext skip read1 read2 files acc :
  (∀ f, f ∈ files → skip (name f) = false → read1 f = read2 f) →
  collect skip read1 files acc = collect skip read2 files acc.
Proof.
  revert acc. induction files as [|f files IH]; intros acc Hrd; simpl; [done|].
  destruct (skip (name f)) eqn:Hskip.
  - apply IH. intros g Hg. apply Hrd. by right.
  - rewrite (Hrd f) by (done || by left).
    destruct (read2 f) as [doc|e]; simpl; [|done].
    apply IH. intros g Hg. apply Hrd. by right.
Qed.

Lemma elem_of_sorted_children dir (es : list (string * node)) f :
  f ∈ sorted ((λ e, dir ++ [e.1]) <$> es) ↔ ∃ k, k ∈ es.*1 ∧ f = dir ++ [k].
Proof.
  rewrite sorted_Permutation, list_elem_of_fmap. split.
  - intros (e & -> & He). exists e.1. split; [|done].
    apply list_elem_of_fmap. by exists e.
  - intros (k & (e & -> & He)%list_elem_of_fmap & ->). by exists e.
Qed.

Lemma iterdir_parse_files skip dir fs :
  (files <- iterdir dir;; parse_files skip (sorted files) [])%io fs
  = (collect_dir skip dir (resolve fs dir), fs).
Proof.
  unfold bind, iterdir, collect_dir.
  destruct (resolve fs dir) as [[data|es]|] eqn:Hd; try done.
  rewrite parse_files_run. f_equal. apply collect_ext.
  intros f (k & _ & ->)%elem_of_sorted_children _.
  by rewrite name_app, (resolve_child _ _ _ _ Hd).
Qed.

(** The bundler reads everything before it opens the destination; once
    the destination is open, [json.dump] either completes or leaves the part
    it wrote. *)
Lemma combine_schemas_run dir dest fs :
  combine_schemas dir dest fs
  = match read_bundle dir fs with
    | Ok bundle =>
        match json_dump_raises 2 bundle with
        | None =>
            match write_node fs dest (json_dumps 2 bundle) with
            | Ok fs' => (Ok bundle, fs')
            | Raise e => (Raise e, fs)
            end
        | Some (e, written) =>
            match write_node fs dest written with
            | Ok fs' => (Raise e, fs')
            | Raise e' => (Raise e', fs)
            end
        end
    | Raise e => (Raise e, fs)
    end.
Proof.
  unfold combine_schemas, read_bundle.
  pose proof (iterdir_parse_files skip_method dir fs) as Hm.
  pose proof (iterdir_parse_files skip_notification
                (dir ++ ["notification"]) fs) as Hn.
  unfold bind in *.
  destruct (iterdir dir fs) as [[files|e] fs1].
  - rewrite Hm.
    destruct (collect_dir skip_method dir (resolve fs dir)) as [ms|e];
      cbn [rbind]; [|done].
    destruct (iterdir (dir ++ ["notification"]) fs) as [[files'|e] fs2].
    + rewrite Hn.
      destruct (collect_dir skip_notification _ _) as [ns|e];
        cbn [rbind]; [|done].
      unfold open_w, json_dump, put_text, ret, raise.
      destruct (write_node fs dest "") as [fs0|e0] eqn:Hopen.
      * destruct (json_dump_raises 2 _) as [[e written]|].
        -- unfold bind. rewrite (write_node_overwrite _ _ _ _ written Hopen).
           destruct (write_node fs dest written) as [w|e1] eqn:Hw; [done|].
           by rewrite (write_node_Raise_any _ _ _ "" _ Hw) in Hopen.
        -- rewrite (write_node_overwrite _ _ _ _ (json_dumps 2 _) Hopen).
           destruct (write_node fs dest (json_dumps 2 _)) as [w|e1] eqn:Hw;
             [done|].
           by rewrite (write_node_Raise_any _ _ _ "" _ Hw) in Hopen.
      * destruct (json_dump_raises 2 _) as [[e written]|].
        -- by rewrite (write_node_Raise_any _ _ _ written _ Hopen).
        -- by rewrite (write_node_Raise_any _ _ _ (json_dumps 2 _) _ Hopen).
    + injection Hn as <- <-. done.
  - injection Hm as <- <-. done.
Qed.
End BundlerFacts.

(** ** Directories with the same content *)

Lemma same_tree_entries es1 es2 :
  same_tree (Dir es1) (Dir es2) → NoDup es1.*1 →
  es1.*1 ≡ₚ es2.*1
  ∧ ∀ k, option_Forall2 same_tree (dict_get k es1) (dict_get k es2).
Proof.
  intros Hsame Hnd. inversion Hsame as [|? es ? Hperm Hall]; subst.
  assert (es.*1 = es2.*1) as Hkeys.
  { clear -Hall. induction Hall as [|[??] [??] ?? [??]]; simpl in *;
      [done | by f_equal]. }
  split; [by rewrite Hperm, Hkeys|].
  intros k. rewrite (dict_get_Permutation k es1 es Hnd Hperm).
  clear -Hall. induction Hall as [|[k1 c1] [k2 c2] ?? [Hk Hc] ? IH];
    simpl in *; [constructor|]. subst k2.
  destruct (String.eqb k k1); [by constructor | done].
Qed.

Lemma well_formed_child es k c :
  well_formed (Dir es) → dict_get k es = Some c → well_formed c.
Proof.
  intros Hwf Hget. inversion Hwf as [|? _ Hall]; subst.
  apply dict_get_Some_elem_of in Hget.
  by apply (proj1 (Forall_forall _ _) Hall (k, c)).
Qed.

Lemma children_paths dir (es : list (string * node)) :
  (λ e, dir ++ [e.1]) <$> es = (λ k, dir ++ [k]) <$> es.*1.
Proof. by rewrite <-list_fmap_compose. Qed.

Section Determinism.
Context `{JsonCodec}.

Lemma read_doc_same c1 c2 :
  option_Forall2 same_tree c1 c2 → read_doc c1 = read_doc c2.
Proof. intros [?? []|]; done. Qed.

Lemma collect_dir_same skip dir t1 t2 :
  option_Forall2 same_tree t1 t2 →
  (∀ t, t1 = Some t → well_formed t) →
  collect_dir skip dir t1 = collect_dir skip dir t2.
Proof.
  intros [c1 c2 Hsame|] Hwf; [|done].
  specialize (Hwf c1 eq_refl).
  destruct Hsame as [data|es1 es es2 Hperm Hall]; [done|].
  inversion Hwf as [|? Hnd _]; subst.
  destruct (same_tree_entries es1 es2) as [Hkeys Hget];
    [by econstructor | done |].
  unfold collect_dir.
  rewrite (sorted_proper ((λ e, dir ++ [e.1]) <$> es2)
                         ((λ e, dir ++ [e.1]) <$> es1)).
  - apply collect_ext. intros f _ _. apply read_doc_same, Hget.
  - rewrite !children_paths. by rewrite Hkeys.
Qed.

(** What the bundler reads depends on the content of the schema directory
    alone, not on the order in which its entries are enumerated. *)
Lemma read_bundle_same dir fs1 fs2 t1 t2 :
  resolve fs1 dir = Some t1 → resolve fs2 dir = Some t2 →
  well_formed t1 → same_tree t1 t2 →
  read_bundle dir fs1 = read_bundle dir fs2.
Proof.
  intros Hd1 Hd2 Hwf Hsame. unfold read_bundle.
  rewrite !resolve_app, Hd1, Hd2. cbn [mbind option_bind].
  rewrite (collect_dir_same skip_method dir (Some t1) (Some t2));
    [|by constructor|by intros ? [= <-]].
  rewrite (collect_dir_same skip_notification (dir ++ ["notification"])
             (resolve t1 ["notification"]) (resolve t2 ["notification"]));
    [done| |].
  - destruct Hsame as [data|es1 es es2 Hperm Hall]; [constructor|].
    inversion Hwf as [|? Hnd _]; subst.
    destruct (same_tree_entries es1 es2) as [_ Hget];
      [by econstructor | done |].
    simpl. by destruct (Hget "notification"); constructor.
  - intros t. destruct t1 as [|es1]; [done|]. simpl.
    destruct (dict_get "notification" es1) as [c|] eqn:Hget; [|done].
    intros [= <-]. by eapply well_formed_child.
Qed.

Lemma write_node_resolve fs p data fs' :
  write_node fs p data = Ok fs' → resolve fs' p = Some (File data).
Proof.
  revert fs fs'. induction p as [|c p IH]; intros fs fs'; simpl; [done|].
  destruct fs as [|es]; [done|]. destruct p as [|c' p].
  - assert (resolve (Dir (dict_set c (File data) es)) [c]
            = Some (File data)) as Hres by (simpl; by rewrite dict_get_set).
    destruct (dict_get c es) as [[]|]; intros [= <-]; done.
  - destruct (dict_get c es) as [child|]; [|done].
    destruct (write_node child (c' :: p) data) as [child'|] eqn:Hw; [|done].
    cbn [rbind]. intros [= <-]. cbn [resolve]. rewrite dict_get_set.
    by apply (IH child).
Qed.
End Determinism.

(** C6: two runs of [combine_schemas] on file systems whose schema
    directories hold the same files, however the two enumerate them, return
    the same bundle and leave the same bytes at the destination. *)
Theorem combine_schemas_deterministic `{JsonCodec}
    dir dest fs1 fs2 t1 t2 b1 fs1' b2 fs2' :
  resolve fs1 dir = Some t1 →
  resolve fs2 dir = Some t2 →
  well_formed t1 →
  same_tree t1 t2 →
  combine_schemas dir dest fs1 = (Ok b1, fs1') →
  combine_schemas dir dest fs2 = (Ok b2, fs2') →
  b1 = b2
  ∧ resolve fs1' dest = Some (File (json_dumps 2 b1))
  ∧ resolve fs2' dest = Some (File (json_dumps 2 b1)).
Proof.
  intros Hd1 Hd2 Hwf Hsame.
  rewrite !combine_schemas_run, (read_bundle_same dir fs1 fs2 t1 t2) by done.
  destruct (read_bundle dir fs2) as [b|e]; [|done].
  destruct (json_dump_raises 2 b) as [[e w]|];
    [by destruct (write_node fs1 dest w)|].
  destruct (write_node fs1 dest _) as [w1|] eqn:Hw1; [|done].
  destruct (write_node fs2 dest _) as [w2|] eqn:Hw2; [|done].
  intros [= <- <-] [= <- <-].
  eauto using write_node_resolve.
Qed.

(** Closed goals about the example trees. *)
Ltac example_tree :=
  repeat match goal with
    | |- well_formed (File _) => apply wf_File
    | |- well_formed (Dir _) => apply wf_Dir
    | |- well_formed _ => progress simpl
    | |- NoDup _ => apply (bool_decide_unpack _); by vm_compute
    | |- Forall _ _ => constructor
    | |- same_tree (File _) (File _) => apply same_File
    | |- same_tree (Dir _) (Dir _) =>
        eapply same_Dir; [symmetry; apply reverse_Permutation|]; vm_compute
    | |- same_tree _ _ => progress simpl
    | |- Forall2 _ _ _ => constructor
    | |- _ ∧ _ => split
    | |- _ = _ => reflexivity
    end.

Lemma combine_schemas_deterministic_witness :
  ∃ b fs1' fs2',
    @combine_schemas Examples.codec Examples.schema_dir Examples.dest
      (Examples.schemas Examples.notification_files) = (Ok b, fs1')
    ∧ @combine_schemas Examples.codec Examples.schema_dir Examples.dest
        Examples.schemas_reversed = (Ok b, fs2')
    ∧ resolve fs1' Examples.dest = resolve fs2' Examples.dest.
Proof.
  destruct (@combine_schemas Examples.codec Examples.schema_dir Examples.dest
              (Examples.schemas Examples.notification_files))
    as [[b1|e1] fs1'] eqn:H1; [|vm_compute in H1; discriminate H1].
  destruct (@combine_schemas Examples.codec Examples.schema_dir Examples.dest
              Examples.schemas_reversed)
    as [[b2|e2] fs2'] eqn:H2; [|vm_compute in H2; discriminate H2].
  destruct (@combine_schemas_deterministic Examples.codec
              Examples.schema_dir Examples.dest
              (Examples.schemas Examples.notification_files)
              Examples.schemas_reversed _ _ b1 fs1' b2 fs2'
              eq_refl eq_refl ltac:(example_tree) ltac:(example_tree) H1 H2)
    as (<- & Hr1 & Hr2).
  exists b1, fs1', fs2'. split; [reflexivity|]. split; [reflexivity|].
  by rewrite Hr1, Hr2.
Defined.

(** ** A second run *)

Lemma write_node_again fs p data fs' :
  write_node fs p data = Ok fs' → write_node fs' p data = Ok fs'.
Proof.
  revert fs fs'. induction p as [|c p IH]; intros fs fs'; simpl; [done|].
  destruct fs as [|es]; [done|]. destruct p as [|c' p].
  - assert (write_node (Dir (dict_set c (File data) es)) [c] data
            = Ok (Dir (dict_set c (File data) es))) as Hagain
      by (simpl; by rewrite dict_get_set, dict_set_set).
    destruct (dict_get c es) as [[]|]; intros [= <-]; done.
  - destruct (dict_get c es) as [child|]; [|done].
    destruct (write_node child (c' :: p) data) as [child'|] eqn:Hw; [|done].
    cbn [rbind]. intros [= <-]. rewrite dict_get_set.
    rewrite (IH child child' Hw). cbn [rbind]. by rewrite dict_set_set.
Qed.

(** Writing the destination leaves every path alone that does not lead to
    it. *)
Lemma write_node_resolve_other fs dest data fs' dir :
  write_node fs dest data = Ok fs' → ¬ dir `prefix_of` dest →
  resolve fs' dir = resolve fs dir.
Proof.
  revert fs fs' dir. induction dest as [|c p IH]; intros fs fs' dir Hw Hpre;
    [done|].
  simpl in Hw. destruct fs as [|es]; [done|].
  destruct dir as [|d dir]; [destruct Hpre; apply prefix_nil|].
  destruct (decide (d = c)) as [->|Hne].
  - assert (¬ dir `prefix_of` p) as Hpre'
      by (intros Hp; apply Hpre; by apply prefix_cons).
    destruct p as [|c' p].
    + assert (dir ≠ []) as Hdir by (intros ->; apply Hpre', prefix_nil).
      assert (∀ text, resolve (File text) dir = None) as Hfile
        by (intros; by destruct dir).
      assert (resolve (Dir (dict_set c (File data) es)) (c :: dir) = None)
        as Hnew by (simpl; by rewrite dict_get_set).
      destruct (dict_get c es) as [[text|]|] eqn:Hget; simplify_eq;
        rewrite Hnew; simpl; rewrite Hget; by rewrite ?Hfile.
    + destruct (dict_get c es) as [child|] eqn:Hget; [|done].
      destruct (write_node child (c' :: p) data) as [child'|] eqn:Hw'; [|done].
      cbn [rbind] in Hw. injection Hw as <-. cbn [resolve].
      rewrite dict_get_set, Hget. by eapply IH.
  - assert (∀ child, resolve (Dir (dict_set c child es)) (d :: dir)
                     = resolve (Dir es) (d :: dir)) as Hother
      by (intros; simpl; by rewrite dict_get_set_ne).
    destruct p as [|c' p].
    + destruct (dict_get c es) as [[]|]; simplify_eq; apply Hother.
    + destruct (dict_get c es) as [child|]; [|done].
      destruct (write_node child (c' :: p) data) as [child'|]; [|done].
      cbn [rbind] in Hw. injection Hw as <-. apply Hother.
Qed.

(** X1: with the destination outside the schema directory, a second run
    right after the first returns the same bundle and leaves the file system
    as the first run left it. *)
Lemma combine_schemas_rerun `{JsonCodec} dir dest fs bundle fs' :
  ¬ dir `prefix_of` dest →
  combine_schemas dir dest fs = (Ok bundle, fs') →
  combine_schemas dir dest fs' = (Ok bundle, fs').
Proof.
  intros Hpre. rewrite !combine_schemas_run.
  destruct (read_bundle dir fs) as [b|] eqn:Hb; [|done].
  destruct (json_dump_raises 2 b) as [[e written]|] eqn:Hdump;
    [by destruct (write_node fs dest written)|].
  destruct (write_node fs dest _) as [w|] eqn:Hw; [|done].
  intros [= <- <-].
  assert (read_bundle dir w = Ok b) as ->.
  { rewrite <-Hb. unfold read_bundle.
    by rewrite !resolve_app, (write_node_resolve_other _ _ _ _ _ Hw Hpre). }
  by rewrite Hdump, (write_node_again _ _ _ _ Hw).
Qed.

(** ** Failures of the bundler *)

Section Failures.
Context `{JsonCodec}.

Lemma collect_total skip read files acc :
  (∀ f, f ∈ files → skip (name f) = false → ∃ doc, read f = Ok doc) →
  ∃ r, collect skip read files acc = Ok r.
Proof.
  revert acc. induction files as [|f files IH]; intros acc Hrd; simpl;
    [by eexists|].
  destruct (skip (name f)) eqn:Hskip.
  - apply IH. intros g Hg. apply Hrd. by right.
  - destruct (Hrd f) as [doc ->]; [by left | done |]. cbn [rbind].
    apply IH. intros g Hg. apply Hrd. by right.
Qed.

Lemma collect_raises skip read files acc f e :
  f ∈ files → skip (name f) = false → read f = Raise e →
  ∃ e', collect skip read files acc = Raise e'.
Proof.
  revert acc. induction files as [|g files IH]; intros acc Hin Hskip Hrd;
    [by apply elem_of_nil in Hin|]. simpl.
  apply elem_of_cons in Hin as [<-|Hin].
  - rewrite Hskip, Hrd. by eexists.
  - destruct (skip (name g)); [by apply IH|].
    destruct (read g) as [doc|e']; cbn [rbind]; [by apply IH | by eexists].
Qed.

(** The loop over a directory succeeds when the entries it does not skip
    are files that parse, whatever the entries it skips are. *)
Lemma collect_dir_total skip dir es :
  (∀ k c, (k, c) ∈ es → skip k = false →
          ∃ data doc, c = File data ∧ json_loads data = Some doc) →
  ∃ r, collect_dir skip dir (Some (Dir es)) = Ok r.
Proof.
  intros Hes. apply collect_total.
  intros f (k & Hk & ->)%elem_of_sorted_children. rewrite name_app.
  intros Hskip. destruct (dict_get k es) as [c|] eqn:Hget.
  - destruct (Hes k c) as (data & doc & -> & Hdoc);
      [by apply dict_get_Some_elem_of | done |].
    exists doc. simpl. by rewrite Hdoc.
  - by apply dict_get_None in Hget.
Qed.

Lemma collect_dir_raises skip dir es k data :
  dict_get k es = Some (File data) → skip k = false →
  json_loads data = None →
  ∃ e, collect_dir skip dir (Some (Dir es)) = Raise e.
Proof.
  intros Hget Hskip Hdoc.
  apply (collect_raises _ _ _ _ (dir ++ [k]) JSONDecodeError).
  - apply elem_of_sorted_children. exists k. split; [|done].
    destruct (decide (k ∈ es.*1)) as [|Hk]; [done|].
    apply dict_get_None in Hk. congruence.
  - by rewrite name_app.
  - rewrite name_app, Hget. simpl. by rewrite Hdoc.
Qed.
End Failures.

(** What a failing run leaves behind. A run that fails while it reads (a
    directory that does not exist, a file that a loop reads and that does
    not parse) leaves the file system as it was, and so does a run that
    cannot open the destination; the file system differs after a failure
    only when [json.dump] raised on the opened destination. When both
    directories exist and every entry that a loop does not skip is a file
    that parses, the run gets as far as the destination. *)
Lemma combine_schemas_read_failures `{JsonCodec} dir dest fs :
  (∀ e, read_bundle dir fs = Raise e →
        combine_schemas dir dest fs = (Raise e, fs))
  ∧ (∀ e fs',
       combine_schemas dir dest fs = (Raise e, fs') →
       fs' = fs
       ∨ ∃ bundle written,
           read_bundle dir fs = Ok bundle
           ∧ json_dump_raises 2 bundle = Some (e, written)
           ∧ write_node fs dest written = Ok fs')
  ∧ (resolve fs dir = None ∨ resolve fs (dir ++ ["notification"]) = None →
     ∃ e, combine_schemas dir dest fs = (Raise e, fs))
  ∧ (∀ es k data,
       resolve fs dir = Some (Dir es) →
       dict_get k es = Some (File data) → skip_method k = false →
       json_loads data = None →
       ∃ e, combine_schemas dir dest fs = (Raise e, fs))
  ∧ (∀ ns k data,
       resolve fs (dir ++ ["notification"]) = Some (Dir ns) →
       dict_get k ns = Some (File data) → skip_notification k = false →
       json_loads data = None →
       ∃ e, combine_schemas dir dest fs = (Raise e, fs))
  ∧ (∀ es ns,
       resolve fs dir = Some (Dir es) →
       resolve fs (dir ++ ["notification"]) = Some (Dir ns) →
       (∀ k c, (k, c) ∈ es → skip_method k = false →
               ∃ data doc, c = File data ∧ json_loads data = Some doc) →
       (∀ k c, (k, c) ∈ ns → skip_notification k = false →
               ∃ data doc, c = File data ∧ json_loads data = Some doc) →
       ∃ bundle, read_bundle dir fs = Ok bundle).
Proof.
  rewrite combine_schemas_run. unfold read_bundle.
  split; [|split; [|split; [|split; [|split]]]].
  - by intros e ->.
  - intros e fs'.
    destruct (rbind _ _) as [b|?]; [|intros [= _ <-]; by left].
    destruct (json_dump_raises 2 b) as [[e' written]|] eqn:Hdump.
    + destruct (write_node fs dest written) as [w|] eqn:Hw.
      * intros [= <- <-]. right. by exists b, written.
      * intros [= _ <-]. by left.
    + destruct (write_node fs dest _); [done|]. intros [= _ <-]. by left.
  - intros [-> | ->].
    + by eexists.
    + destruct (collect_dir skip_method dir _); by eexists.
  - intros es k data -> Hget Hskip Hdoc.
    destruct (collect_dir_raises skip_method dir es k data) as [e ->]; [done..|].
    by eexists.
  - intros ns k data -> Hget Hskip Hdoc.
    destruct (collect_dir skip_method dir _); cbn [rbind]; [|by eexists].
    destruct (collect_dir_raises skip_notification (dir ++ ["notification"])
                ns k data) as [e ->]; [done..|].
    by eexists.
  - intros es ns -> -> Hes Hns.
    destruct (collect_dir_total skip_method dir es Hes) as [ms ->].
    destruct (collect_dir_total skip_notification (dir ++ ["notification"])
                ns Hns) as [nts ->].
    cbn [rbind]. by eexists.
Qed.

(** C7, at a notification directory with a file [xjson] that does not
    parse: the name does not end in [.json], and in the schema directory
    itself the loop over the method files skips such a file and the run
    returns; but the loop over the notification files keeps every name that
    ends in [json], reads the file and raises, so the entry is not skipped.
    The run writes nothing. *)
Theorem combine_schemas_stray_notification_raises :
  endswith "xjson" ".json" = false
  ∧ (∃ bundle fs',
       @combine_schemas Examples.codec Examples.schema_dir Examples.dest
         Examples.stray_method_schemas = (Ok bundle, fs'))
  ∧ @combine_schemas Examples.codec Examples.schema_dir Examples.dest
      (Examples.schemas Examples.unparsable_notification_files)
    = (Raise JSONDecodeError,
       Examples.schemas Examples.unparsable_notification_files).
Proof.
  split; [reflexivity|]. split; [|by vm_compute].
  destruct (@combine_schemas Examples.codec Examples.schema_dir Examples.dest
              Examples.stray_method_schemas) as [[bundle|e] fs'] eqn:Hrun.
  - by exists bundle, fs'.
  - vm_compute in Hrun. discriminate Hrun.
Qed.

(** ** The content of the bundle *)

Lemma StronglySorted_filter {A} (R : relation A) (P : A → Prop)
    `{∀ x, Decision (P x)} l :
  StronglySorted R l → StronglySorted R (filter P l).
Proof.
  induction 1 as [|x l Hl IH Hx]; [constructor|].
  rewrite filter_cons. destruct (decide (P x)); [|done].
  constructor; [done|]. apply Forall_forall.
  intros y [_ Hy]%list_elem_of_filter.
  by apply (proj1 (Forall_forall _ _) Hx).
Qed.

(** Sorted paths of one directory have sorted names. *)
Lemma names_StronglySorted dir ps :
  StronglySorted path_le ps →
  Forall (λ f, ∃ k, f = dir ++ [k]) ps →
  StronglySorted String.le (name <$> ps).
Proof.
  induction 1 as [|f ps Hps IH Hf]; intros Hsib; csimpl; [constructor|].
  apply Forall_cons in Hsib as [[k ->] Hsib].
  constructor; [by apply IH|].
  apply Forall_fmap, Forall_forall. intros g Hg. simpl.
  pose proof (proj1 (Forall_forall _ _) Hsib g Hg) as [k' ->].
  rewrite !name_app. apply (path_le_siblings dir).
  by apply (proj1 (Forall_forall _ _) Hf).
Qed.

Lemma collect_Ok_fresh skip read files acc r :
  NoDup (name <$> files) →
  (∀ f, f ∈ files → name f ∉ acc.*1) →
  collect skip read files acc = Ok r →
  ∃ added,
    r = acc ++ added
    ∧ Forall2 (λ f kv, kv.1 = name f ∧ read f = Ok kv.2)
              (filter (λ f, skip (name f) = false) files) added.
Proof.
  revert acc r. induction files as [|f files IH]; intros acc r Hnd Hfresh.
  - intros [= <-]. exists []. rewrite app_nil_r. split; [done | constructor].
  - csimpl in Hnd. apply NoDup_cons in Hnd as [Hf Hnd]. simpl.
    destruct (skip (name f)) eqn:Hskip.
    + rewrite filter_cons_False by (by rewrite Hskip).
      apply IH; [done|]. intros g Hg. apply Hfresh. by right.
    + destruct (read f) as [doc|e] eqn:Hrd; cbn [rbind]; [|done].
      rewrite dict_set_fresh by (apply Hfresh; by left).
      intros (added & -> & Hall)%IH; [|done|].
      * exists ((name f, doc) :: added). rewrite <-app_assoc.
        split; [done|]. rewrite filter_cons_True by done. by constructor.
      * intros g Hg. rewrite fmap_app, elem_of_app. intros [Hin|Hin].
        -- by apply (Hfresh g); [right|].
        -- apply list_elem_of_singleton in Hin. simpl in Hin.
           apply Hf. rewrite <-Hin. by apply list_elem_of_fmap_2.
Qed.

Section Content.
Context `{JsonCodec}.

Lemma collect_dir_Ok skip dir es r :
  NoDup es.*1 →
  collect_dir skip dir (Some (Dir es)) = Ok r →
  StronglySorted String.le r.*1
  ∧ NoDup r.*1
  ∧ ∀ k doc, (k, doc) ∈ r ↔ bundled skip es k doc.
Proof.
  intros Hnd Hr. unfold collect_dir in Hr.
  set (ps := sorted ((λ e, dir ++ [e.1]) <$> es)) in *.
  assert (∀ f, f ∈ ps ↔ ∃ k, k ∈ es.*1 ∧ f = dir ++ [k]) as Hps
    by (intros; apply elem_of_sorted_children).
  assert (name <$> ps ≡ₚ es.*1) as Hnames.
  { unfold ps. rewrite sorted_Permutation, children_paths.
    rewrite <-list_fmap_compose.
    rewrite (list_fmap_ext (name ∘ (λ k, dir ++ [k])) id es.*1)
      by (intros i k _; apply name_app).
    by rewrite list_fmap_id. }
  apply collect_Ok_fresh in Hr as (added & -> & Hall);
    [|by rewrite Hnames|intros; apply not_elem_of_nil].
  rewrite app_nil_l.
  set (qs := filter (λ f, skip (name f) = false) ps) in *.
  assert (added.*1 = name <$> qs) as Hkeys.
  { apply Forall2_fmap_eq. eapply Forall2_impl; [exact Hall|].
    by intros ?? [? _]. }
  assert (Forall (λ f, ∃ k, f = dir ++ [k]) qs) as Hsib.
  { apply Forall_forall. intros f [_ Hf]%list_elem_of_filter.
    apply Hps in Hf as (k & _ & ->). by exists k. }
  split; [|split].
  - rewrite Hkeys. apply (names_StronglySorted dir); [|done].
    apply StronglySorted_filter, sorted_StronglySorted.
  - rewrite Hkeys. apply NoDup_fmap_2_strong.
    + intros f g Hf Hg.
      pose proof (proj1 (Forall_forall _ _) Hsib f Hf) as [k ->].
      pose proof (proj1 (Forall_forall _ _) Hsib g Hg) as [k' ->].
      rewrite !name_app. by intros ->.
    + apply NoDup_filter. apply (NoDup_fmap_1 name). by rewrite Hnames.
  - intros k doc. unfold bundled. split.
    + intros [i Hi]%list_elem_of_lookup_1.
      destruct (Forall2_lookup_r _ _ _ _ _ Hall Hi) as (f & Hf & Hk & Hrd).
      apply list_elem_of_lookup_2, list_elem_of_filter in Hf as [Hskip Hf].
      apply Hps in Hf as (k' & Hk' & ->). rewrite name_app in *.
      simpl in Hk. subst k'. split; [done|].
      simpl in Hrd. destruct (dict_get k es) as [[data|?]|] eqn:Hget; try done.
      exists data. split; [by apply dict_get_Some_elem_of|].
      simpl in Hrd. destruct (json_loads data) as [?|]; congruence.
    + intros (Hskip & data & Hin & Hdoc).
      assert (dir ++ [k] ∈ qs) as [i Hi]%list_elem_of_lookup_1.
      { apply list_elem_of_filter. rewrite name_app. split; [done|].
        apply Hps. exists k. split; [|done].
        apply list_elem_of_fmap. by exists (k, File data). }
      destruct (Forall2_lookup_l _ _ _ _ _ Hall Hi) as ([k' doc'] & Hkv & Hk & Hrd).
      rewrite name_app in *. simpl in Hk, Hrd. subst k'.
      rewrite (dict_get_elem_of _ _ _ Hnd Hin) in Hrd. simpl in Hrd.
      rewrite Hdoc in Hrd. injection Hrd as <-.
      by eapply list_elem_of_lookup_2.
Qed.
End Content.

(** C8: after a run of [combine_schemas] that returns, the destination
    holds the document [{"methods": ..., "notifications": ...}], written
    with an indent of 2, and this document is what the run returns. The keys
    of each of the two mappings are in ascending order and distinct, and a
    mapping holds the pair of a name and a document exactly when its
    directory holds a file of that name that its loop does not skip and that
    parses to the document. *)
Theorem combine_schemas_artifact `{JsonCodec} dir dest fs es ns bundle fs' :
  resolve fs dir = Some (Dir es) →
  NoDup es.*1 →
  resolve fs (dir ++ ["notification"]) = Some (Dir ns) →
  NoDup ns.*1 →
  combine_schemas dir dest fs = (Ok bundle, fs') →
  ∃ methods notifications,
    bundle = JObj [("methods", JObj methods);
                   ("notifications", JObj notifications)]
    ∧ resolve fs' dest = Some (File (json_dumps 2 bundle))
    ∧ StronglySorted String.le methods.*1
    ∧ NoDup methods.*1
    ∧ (∀ k doc, (k, doc) ∈ methods ↔ bundled skip_method es k doc)
    ∧ StronglySorted String.le notifications.*1
    ∧ NoDup notifications.*1
    ∧ (∀ k doc, (k, doc) ∈ notifications ↔ bundled skip_notification ns k doc).
Proof.
  intros Hd Hnd Hn Hnd'. rewrite combine_schemas_run. unfold read_bundle.
  rewrite Hd, Hn.
  destruct (collect_dir skip_method dir _) as [ms|?] eqn:Hms;
    cbn [rbind]; [|done].
  destruct (collect_dir skip_notification _ _) as [nts|?] eqn:Hnts;
    cbn [rbind]; [|done].
  destruct (json_dump_raises 2 _) as [[e written]|];
    [by destruct (write_node fs dest written)|].
  destruct (write_node fs dest _) as [w|?] eqn:Hw; [|done].
  intros [= <- <-]. exists ms, nts.
  apply collect_dir_Ok in Hms as (? & ? & ?); [|done].
  apply collect_dir_Ok in Hnts as (? & ? & ?); [|done].
  split; [done|]. split; [by eapply write_node_resolve|]. done.
Qed.

Lemma combine_schemas_artifact_witness :
  ∃ methods notifications fs',
    @combine_schemas Examples.codec Examples.schema_dir Examples.dest
      (Examples.schemas Examples.notification_files)
    = (Ok (JObj [("methods", JObj methods);
                 ("notifications", JObj notifications)]), fs')
    ∧ methods.*1 = ["lightning-connect.json"; "lightning-getinfo.json"]
    ∧ StronglySorted String.le methods.*1
    ∧ StronglySorted String.le notifications.*1.
Proof.
  destruct (@combine_schemas Examples.codec Examples.schema_dir Examples.dest
              (Examples.schemas Examples.notification_files))
    as [[bundle|e] fs'] eqn:Hrun; [|vm_compute in Hrun; discriminate Hrun].
  destruct (@combine_schemas_artifact Examples.codec
              Examples.schema_dir Examples.dest
              (Examples.schemas Examples.notification_files)
              _ _ bundle fs' eq_refl ltac:(example_tree)
              eq_refl ltac:(example_tree) Hrun)
    as (methods & notifications & -> & _ & Hms & _ & _ & Hns & _).
  exists methods, notifications, fs'.
  split; [reflexivity|]. split; [|split; [exact Hms | exact Hns]].
  vm_compute in Hrun. by simplify_eq.
Defined.

(** C5, at a notification directory with a file [xjson]: the loop over the
    notification files keeps every name that ends in [json], so the bundle
    has an entry for [xjson], a name that does not end in [.json] and that
    the loop over the method files would skip. *)
Theorem combine_schemas_bundles_stray_notification :
  endswith "xjson" ".json" = false
  ∧ skip_method "xjson" = true
  ∧ skip_notification "xjson" = false
  ∧ (@combine_schemas Examples.codec Examples.schema_dir Examples.dest
       (Examples.schemas Examples.stray_notification_files)).1
    = Ok (JObj [("methods",
                 JObj [("lightning-connect.json", Examples.call_schema);
                       ("lightning-getinfo.json", Examples.call_schema)]);
                ("notifications",
                 JObj [("block_added.request.json", JObj []);
                       ("block_added.schema.json", JObj []);
                       ("xjson", JObj [])])]).
Proof. repeat split; by vm_compute. Qed.

(** * Further properties *)

(** ** What a run writes and what it leaves alone *)

Lemma combine_schemas_rerun_witness :
  ∃ bundle fs',
    @combine_schemas Examples.codec Examples.schema_dir Examples.dest
      (Examples.schemas Examples.notification_files) = (Ok bundle, fs')
    ∧ @combine_schemas Examples.codec Examples.schema_dir Examples.dest fs'
      = (Ok bundle, fs').
Proof.
  destruct (@combine_schemas Examples.codec Examples.schema_dir Examples.dest
              (Examples.schemas Examples.notification_files))
    as [[bundle|e] fs'] eqn:Hrun; [|vm_compute in Hrun; discriminate Hrun].
  exists bundle, fs'. split; [reflexivity|].
  apply (@combine_schemas_rerun Examples.codec Examples.schema_dir
           Examples.dest (Examples.schemas Examples.notification_files));
    [|exact Hrun].
  intros [k Hk]. discriminate Hk.
Defined.

(** X2: a run of [combine_schemas] that returns changes the file system at
    the destination and in the listings of the directories above it only:
    every path that does not lead to the destination resolves after the run
    as before it. *)
Theorem combine_schemas_leaves_rest `{JsonCodec} dir dest fs bundle fs' p :
  combine_schemas dir dest fs = (Ok bundle, fs') →
  ¬ p `prefix_of` dest →
  resolve fs' p = resolve fs p.
Proof.
  rewrite combine_schemas_run.
  destruct (read_bundle dir fs) as [b|]; [|done].
  destruct (json_dump_raises 2 b) as [[e written]|];
    [by destruct (write_node fs dest written)|].
  destruct (write_node fs dest _) as [w|] eqn:Hw; [|done].
  intros [= <- <-]. by eapply write_node_resolve_other.
Qed.

Lemma combine_schemas_leaves_rest_witness :
  ∃ bundle fs',
    @combine_schemas Examples.codec Examples.schema_dir Examples.dest
      (Examples.schemas Examples.notification_files) = (Ok bundle, fs')
    ∧ resolve fs' Examples.schema_dir
      = resolve (Examples.schemas Examples.notification_files)
          Examples.schema_dir.
Proof.
  destruct (@combine_schemas Examples.codec Examples.schema_dir Examples.dest
              (Examples.schemas Examples.notification_files))
    as [[bundle|e] fs'] eqn:Hrun; [|vm_compute in Hrun; discriminate Hrun].
  exists bundle, fs'. split; [reflexivity|].
  apply (@combine_schemas_leaves_rest Examples.codec Examples.schema_dir
           Examples.dest _ bundle fs' Examples.schema_dir Hrun).
  intros [k Hk]. discriminate Hk.
Defined.

(** ** Lookups in what a loop collects *)

Lemma dict_set_keys {V} k (v : V) d k' :
  k' ∈ (dict_set k v d).*1 ↔ k' = k ∨ k' ∈ d.*1.
Proof.
  induction d as [|[k1 v1] d IH]; simpl.
  - rewrite list_elem_of_singleton. split; [by left | by intros [|?%elem_of_nil]].
  - destruct (String.eqb_spec k k1) as [->|Hne]; csimpl.
    + rewrite !elem_of_cons. tauto.
    + rewrite !elem_of_cons, IH. tauto.
Qed.

Section Collected.
Context (skip : string → bool) (read : path → result json).

(** A key that no file of the loop brings keeps its entry. *)
Lemma collect_get_other files acc r k :
  collect skip read files acc = Ok r →
  (∀ f, f ∈ files → skip (name f) = false → name f ≠ k) →
  dict_get k r = dict_get k acc.
Proof.
  revert acc. induction files as [|f files IH]; intros acc; simpl.
  - by intros [= <-].
  - intros Hr Hk. destruct (skip (name f)) eqn:Hskip.
    + apply IH; [done|]. intros g Hg. apply Hk. by right.
    + destruct (read f) as [doc|]; cbn [rbind] in Hr; [|done].
      rewrite (IH _ Hr) by (intros g Hg; apply Hk; by right).
      apply dict_get_set_ne. intros ->. by apply (Hk f); [left|..].
Qed.

(** A file that the loop reads is entered under its name, with what the
    last file of that name parses to. *)
Lemma collect_get_read files acc r f :
  (∀ g h, name g = name h → read g = read h) →
  collect skip read files acc = Ok r →
  f ∈ files → skip (name f) = false →
  ∃ doc, read f = Ok doc ∧ dict_get (name f) r = Some doc.
Proof.
  intros Hname. revert acc f.
  induction files as [|g files IH]; intros acc f Hr Hin Hskip;
    [by apply elem_of_nil in Hin|].
  simpl in Hr.
  destruct (decide (name f ∈ name <$> files)) as [Hlater|Hlast].
  - apply list_elem_of_fmap in Hlater as (h & Hfh & Hh).
    assert (skip (name h) = false) as Hskip' by (by rewrite <-Hfh).
    destruct (skip (name g)).
    + destruct (IH _ _ Hr Hh Hskip') as (doc & Hdoc & Hget).
      exists doc. by rewrite (Hname f h Hfh), Hfh.
    + destruct (read g) as [doc'|]; cbn [rbind] in Hr; [|done].
      destruct (IH _ _ Hr Hh Hskip') as (doc & Hdoc & Hget).
      exists doc. by rewrite (Hname f h Hfh), Hfh.
  - apply elem_of_cons in Hin as [->|Hin];
      [|destruct Hlast; by apply list_elem_of_fmap_2].
    rewrite Hskip in Hr.
    destruct (read g) as [doc|]; cbn [rbind] in Hr; [|done].
    exists doc. split; [done|].
    rewrite (collect_get_other _ _ _ (name g) Hr).
    + apply dict_get_set.
    + intros h Hh _ Heq. apply Hlast. rewrite <-Heq.
      by apply list_elem_of_fmap_2.
Qed.
End Collected.

Section CollectedDir.
Context `{JsonCodec}.

(** What a name looks up in the mapping a loop makes of a directory: the
    parsed content of the file of that name, when the loop reads it, and
    nothing otherwise. *)
Lemma collect_dir_get skip dir es r k :
  collect_dir skip dir (Some (Dir es)) = Ok r →
  (k ∈ es.*1 → skip k = false →
   ∃ doc, read_doc (dict_get k es) = Ok doc ∧ dict_get k r = Some doc)
  ∧ (k ∉ es.*1 ∨ skip k = true → dict_get k r = None).
Proof.
  unfold collect_dir. intros Hr. split.
  - intros Hk Hskip.
    assert (∀ g h : path,
              name g = name h →
              read_doc (dict_get (name g) es) = read_doc (dict_get (name h) es))
      as Hname by (by intros g h ->).
    destruct (collect_get_read skip (λ f, read_doc (dict_get (name f) es))
                _ _ _ (dir ++ [k]) Hname Hr) as (doc & Hdoc & Hget).
    + apply elem_of_sorted_children. by exists k.
    + by rewrite name_app.
    + rewrite name_app in *. by exists doc.
  - intros Hk. rewrite (collect_get_other _ _ _ _ _ k Hr); [done|].
    intros f (k' & Hk' & ->)%elem_of_sorted_children. rewrite name_app.
    intros Hskip ->. destruct Hk as [Hk|Hk]; [done | congruence].
Qed.

Lemma collect_dir_Ok_readable skip dir es :
  (∃ r, collect_dir skip dir (Some (Dir es)) = Ok r) ↔ readable skip es.
Proof.
  split.
  - intros [r Hr] k Hk Hskip.
    destruct (proj1 (collect_dir_get skip dir es r k Hr) Hk Hskip)
      as (doc & Hdoc & _).
    destruct (dict_get k es) as [[data|]|]; try done.
    exists data, doc. split; [done|]. simpl in Hdoc.
    destruct (json_loads data); congruence.
  - intros Hes. apply collect_total.
    intros f (k & Hk & ->)%elem_of_sorted_children. rewrite name_app.
    intros Hskip. destruct (Hes k Hk Hskip) as (data & doc & -> & Hdoc).
    exists doc. simpl. by rewrite Hdoc.
Qed.
End CollectedDir.

(** ** Opening the destination *)

Lemma write_node_writable fs p data :
  (∃ fs', write_node fs p data = Ok fs') ↔ writable fs p.
Proof.
  split.
  - revert fs. induction p as [|c p IH]; intros fs [fs' Hw]; [done|].
    simpl in Hw. destruct fs as [|es]; [done|]. destruct p as [|c' p].
    + exists [], c, es. split; [done|]. split; [done|].
      intros es' Hget. by rewrite Hget in Hw.
    + destruct (dict_get c es) as [child|] eqn:Hget; [|done].
      destruct (write_node child (c' :: p) data) as [child'|] eqn:Hw'; [|done].
      destruct (IH child) as (parent & k & es' & Hp & Hres & Hk); [by eexists|].
      exists (c :: parent), k, es'. split; [by rewrite Hp|].
      split; [|done]. simpl. by rewrite Hget.
  - intros (parent & k & es & -> & Hres & Hk). revert fs Hres.
    induction parent as [|c parent IH]; intros fs Hres.
    + injection Hres as ->. simpl.
      destruct (dict_get k es) as [[|es']|] eqn:Hget; try by eexists.
      by destruct (Hk es').
    + simpl in Hres. destruct fs as [|es0]; [done|].
      destruct (dict_get c es0) as [child|] eqn:Hget; [|done].
      destruct (IH child Hres) as [child' Hw].
      simpl. rewrite Hget.
      destruct (parent ++ [k]) as [|c' p] eqn:Hp;
        [by destruct parent|].
      rewrite Hw. by eexists.
Qed.

Lemma read_bundle_Ok_iff `{JsonCodec} dir fs :
  (∃ bundle, read_bundle dir fs = Ok bundle)
  ↔ ∃ es ns,
      resolve fs dir = Some (Dir es)
      ∧ resolve fs (dir ++ ["notification"]) = Some (Dir ns)
      ∧ readable skip_method es
      ∧ readable skip_notification ns.
Proof.
  unfold read_bundle. split.
  - intros [bundle Hb].
    destruct (collect_dir skip_method dir (resolve fs dir)) as [ms|] eqn:Hms;
      cbn [rbind] in Hb; [|done].
    destruct (collect_dir skip_notification _ _) as [nts|] eqn:Hnts;
      cbn [rbind] in Hb; [|done].
    destruct (resolve fs dir) as [[|es]|]; try done.
    destruct (resolve fs (dir ++ ["notification"])) as [[|ns]|]; try done.
    exists es, ns. split; [done|]. split; [done|].
    split; eapply collect_dir_Ok_readable; by eexists.
  - intros (es & ns & -> & -> & Hes & Hns).
    apply (collect_dir_Ok_readable skip_method dir) in Hes as [ms ->].
    apply (collect_dir_Ok_readable skip_notification (dir ++ ["notification"]))
      in Hns as [nts ->].
    cbn [rbind]. by eexists.
Qed.

(** X13: a run is not all or nothing. When both loops have read their
    files, the destination can be opened and [json.dump] raises on the
    bundle, the run ends with the exception of [json.dump] and the
    destination holds the part of the text that was written before it: an
    artifact that was there before is lost, and the rest of the file system
    is as it was. *)
Theorem combine_schemas_dump_failure `{JsonCodec}
    dir dest fs bundle e written :
  read_bundle dir fs = Ok bundle →
  json_dump_raises 2 bundle = Some (e, written) →
  writable fs dest →
  ∃ fs', combine_schemas dir dest fs = (Raise e, fs')
         ∧ resolve fs' dest = Some (File written)
         ∧ write_node fs dest written = Ok fs'.
Proof.
  intros Hb Hdump [w Hw]%(write_node_writable fs dest written).
  rewrite combine_schemas_run, Hb, Hdump, Hw.
  exists w. split; [done|]. split; [|done]. by eapply write_node_resolve.
Qed.

Lemma combine_schemas_dump_failure_witness :
  ∃ fs',
    @combine_schemas (Examples.bounded_codec 3 16) Examples.schema_dir
      Examples.dest (Examples.schemas Examples.notification_files)
    = (Raise RecursionError, fs')
    ∧ resolve fs' Examples.dest
      = Some (File (substring 0 16 (Examples.render 2 0 Examples.artifact)))
    ∧ write_node (Examples.schemas Examples.notification_files) Examples.dest
        (substring 0 16 (Examples.render 2 0 Examples.artifact)) = Ok fs'.
Proof.
  apply (@combine_schemas_dump_failure (Examples.bounded_codec 3 16)
           Examples.schema_dir Examples.dest
           (Examples.schemas Examples.notification_files)
           Examples.artifact RecursionError).
  - vm_compute. reflexivity.
  - vm_compute. reflexivity.
  - exists ["msggen"], "schema.json", []. split; [reflexivity|].
    split; [reflexivity|]. intros es' Hget. discriminate Hget.
Defined.

(** X3: [combine_schemas] returns exactly when the schema directory and
    its notification subdirectory exist, every entry that a loop does not
    skip is a file that parses, the destination can be opened for writing,
    its directory being there already and the destination being no
    directory, and [json.dump] does not raise on the bundle that was
    read. *)
Theorem combine_schemas_returns_iff `{JsonCodec} dir dest fs :
  (∃ bundle fs', combine_schemas dir dest fs = (Ok bundle, fs'))
  ↔ (∃ es ns,
       resolve fs dir = Some (Dir es)
       ∧ resolve fs (dir ++ ["notification"]) = Some (Dir ns)
       ∧ readable skip_method es
       ∧ readable skip_notification ns)
    ∧ writable fs dest
    ∧ (∀ bundle, read_bundle dir fs = Ok bundle →
                 json_dump_raises 2 bundle = None).
Proof.
  rewrite combine_schemas_run, <-read_bundle_Ok_iff. split.
  - intros (bundle & fs' & Hrun).
    destruct (read_bundle dir fs) as [b|]; [|done].
    destruct (json_dump_raises 2 b) as [[e written]|] eqn:Hdump;
      [by destruct (write_node fs dest written)|].
    destruct (write_node fs dest _) as [w|] eqn:Hw; [|done].
    split; [by eexists|]. split.
    + apply (write_node_writable fs dest (json_dumps 2 b)). by eexists.
    + by intros ? [= <-].
  - intros ([b Hb] & Hdest & Hdump). rewrite Hb, (Hdump b Hb).
    apply (write_node_writable fs dest (json_dumps 2 b)) in Hdest as [w ->].
    by eexists _, _.
Qed.

(** ** Names the loops keep *)

Lemma string_app_cons c a b : String c a +:+ b = String c (a +:+ b).
Proof. reflexivity. Qed.

Lemma string_app_assoc a b c : (a +:+ b) +:+ c = a +:+ (b +:+ c).
Proof.
  induction a as [|x a IH]; [done|]. by rewrite !string_app_cons, IH.
Qed.

Lemma string_length_app a b :
  String.length (a +:+ b) = String.length a + String.length b.
Proof.
  induction a as [|x a IH]; [done|]. rewrite string_app_cons. simpl.
  by rewrite IH.
Qed.

Lemma substring_all s : substring 0 (String.length s) s = s.
Proof. induction s as [|x s IH]; simpl; [done | by rewrite IH]. Qed.

Lemma substring_app_suffix a b :
  substring (String.length a) (String.length b) (a +:+ b) = b.
Proof.
  induction a as [|x a IH]; [apply substring_all|].
  rewrite string_app_cons. simpl. apply IH.
Qed.

(** A string ends with what was appended to it last. *)
Lemma endswith_app a suffix : endswith (a +:+ suffix) suffix = true.
Proof.
  unfold endswith. rewrite string_length_app.
  replace (String.length a + String.length suffix - String.length suffix)
    with (String.length a) by lia.
  rewrite substring_app_suffix, String.eqb_refl, andb_true_r.
  apply Nat.leb_le. lia.
Qed.

Lemma skip_method_rpc_name x :
  x ≠ "sql" → skip_method ("lightning-" +:+ x +:+ ".json") = false.
Proof.
  intros Hx. unfold skip_method.
  assert ("lightning-" +:+ x +:+ ".json" = ("lightning-" +:+ x) +:+ ".json")
    as Hassoc by (by rewrite string_app_assoc).
  rewrite Hassoc, endswith_app. cbn [negb orb]. rewrite <-Hassoc.
  apply String.eqb_neq. intros Heq. apply Hx.
  apply (append_suffix_inj ".json" x "sql").
  apply (inj (String.app "lightning-")). exact Heq.
Qed.

Lemma skip_notification_request x :
  skip_notification (x +:+ ".request.json") = false.
Proof.
  unfold skip_notification.
  change ".request.json" with (".request." +:+ "json").
  by rewrite <-string_app_assoc, endswith_app.
Qed.

Lemma skip_notification_schema x :
  skip_notification (x +:+ ".schema.json") = false.
Proof.
  unfold skip_notification.
  change ".schema.json" with (".schema." +:+ "json").
  by rewrite <-string_app_assoc, endswith_app.
Qed.

(** ** From the bundler to the loaders *)

Section Pipeline.
Context `{JsonCodec}.

Lemma combine_schemas_Ok_inv dir dest fs bundle fs' :
  combine_schemas dir dest fs = (Ok bundle, fs') →
  ∃ es ns ms nts,
    resolve fs dir = Some (Dir es)
    ∧ resolve fs (dir ++ ["notification"]) = Some (Dir ns)
    ∧ collect_dir skip_method dir (Some (Dir es)) = Ok ms
    ∧ collect_dir skip_notification (dir ++ ["notification"]) (Some (Dir ns))
      = Ok nts
    ∧ bundle = JObj [("methods", JObj ms); ("notifications", JObj nts)]
    ∧ write_node fs dest (json_dumps 2 bundle) = Ok fs'.
Proof.
  rewrite combine_schemas_run. unfold read_bundle.
  destruct (resolve fs dir) as [[|es]|]; try done.
  destruct (collect_dir skip_method dir _) as [ms|] eqn:Hms;
    cbn [rbind]; [|done].
  destruct (resolve fs (dir ++ ["notification"])) as [[|ns]|]; try done.
  destruct (collect_dir skip_notification _ _) as [nts|] eqn:Hnts;
    cbn [rbind]; [|done].
  destruct (json_dump_raises 2 _) as [[e written]|];
    [by destruct (write_node fs dest written)|].
  destruct (write_node fs dest _) as [w|] eqn:Hw; [|done].
  intros [= <- <-]. by exists es, ns, ms, nts.
Qed.

Lemma write_node_parent fs dir k data fs' es :
  write_node fs (dir ++ [k]) data = Ok fs' →
  resolve fs dir = Some (Dir es) →
  resolve fs' dir = Some (Dir (dict_set k (File data) es)).
Proof.
  revert fs fs'. induction dir as [|c dir IH]; intros fs fs' Hw Hres.
  - injection Hres as ->. simpl in Hw.
    destruct (dict_get k es) as [[]|]; by simplify_eq.
  - simpl in Hres. destruct fs as [|es0]; [done|].
    destruct (dict_get c es0) as [child|] eqn:Hget; [|done].
    simpl in Hw. rewrite Hget in Hw.
    destruct (dir ++ [k]) as [|c' p] eqn:Hp; [by destruct dir|].
    destruct (write_node child (c' :: p) data) as [child'|] eqn:Hw'; [|done].
    cbn [rbind] in Hw. injection Hw as <-. cbn [resolve].
    rewrite dict_get_set. by apply (IH child).
Qed.
End Pipeline.

(** X4: [combine_schemas] has no guard against its own output. With a
    destination in the schema directory whose name the loop over the method
    files does not skip, a second run reads the artifact of the first run as
    one more schema file: its bundle has an entry under the destination's
    name, which holds what the first artifact parses to. *)
Theorem combine_schemas_bundles_own_output `{JsonCodec}
    dir k fs b1 fs1 b2 fs2 :
  skip_method k = false →
  combine_schemas dir (dir ++ [k]) fs = (Ok b1, fs1) →
  combine_schemas dir (dir ++ [k]) fs1 = (Ok b2, fs2) →
  ∃ ms doc,
    getitem b2 "methods" = Ok (JObj ms)
    ∧ json_loads (json_dumps 2 b1) = Some doc
    ∧ dict_get k ms = Some doc.
Proof.
  intros Hskip
    (es & ns & ms1 & nts1 & Hes & _ & _ & _ & _ & Hw)%combine_schemas_Ok_inv
    (es' & ns' & ms & nts & Hes' & _ & Hms & _ & -> & _)%combine_schemas_Ok_inv.
  rewrite (write_node_parent _ _ _ _ _ _ Hw Hes) in Hes'.
  injection Hes' as <-.
  destruct (proj1 (collect_dir_get skip_method dir _ ms k Hms))
    as (doc & Hdoc & Hget); [|done|].
  { apply dict_set_keys. by left. }
  rewrite dict_get_set in Hdoc. simpl in Hdoc.
  exists ms, doc. split; [done|]. split; [|done].
  destruct (json_loads (json_dumps 2 b1)); congruence.
Qed.

Lemma combine_schemas_bundles_own_output_witness :
  ∃ b1 fs1 b2 fs2 ms,
    @combine_schemas Examples.pipeline_codec Examples.schema_dir
      Examples.inner_dest (Examples.schemas Examples.notification_files)
    = (Ok b1, fs1)
    ∧ @combine_schemas Examples.pipeline_codec Examples.schema_dir
        Examples.inner_dest fs1 = (Ok b2, fs2)
    ∧ getitem b2 "methods" = Ok (JObj ms)
    ∧ dict_get "bundle.json" ms = Some b1.
Proof.
  destruct (@combine_schemas Examples.pipeline_codec Examples.schema_dir
              Examples.inner_dest (Examples.schemas Examples.notification_files))
    as [[b1|e] fs1] eqn:H1; [|vm_compute in H1; discriminate H1].
  destruct (@combine_schemas Examples.pipeline_codec Examples.schema_dir
              Examples.inner_dest fs1)
    as [[b2|e] fs2] eqn:H2;
    [|vm_compute in H1; injection H1 as <- <-;
      vm_compute in H2; discriminate H2].
  destruct (@combine_schemas_bundles_own_output Examples.pipeline_codec
              Examples.schema_dir "bundle.json"
              (Examples.schemas Examples.notification_files)
              b1 fs1 b2 fs2 eq_refl H1 H2) as (ms & doc & Hms & Hdoc & Hget).
  exists b1, fs1, b2, fs2, ms. split; [reflexivity|]. split; [exact H2|].
  split; [exact Hms|]. rewrite Hget. f_equal.
  vm_compute in H1. injection H1 as <- _.
  vm_compute in Hdoc. by injection Hdoc as <-.
Defined.

Section LoadBundled.
Context `{JsonCodec} `{TypeModel}.

Lemma method_from_schema_run schema name methods entry rq_js rs_js rq rs :
  getitem schema "methods" = Ok methods →
  getitem methods ("lightning-" +:+ lower name +:+ ".json") = Ok entry →
  getitem entry "request" = Ok rq_js →
  getitem entry "response" = Ok rs_js →
  from_js rq_js name = Ok rq →
  from_js rs_js name = Ok rs →
  method_from_schema schema name
  = Ok (mkMethod name
          (set_typename (TypeName_iadd (typename rq) "Request") rq)
          (set_typename (TypeName_iadd (typename rs) "Response") rs)).
Proof.
  intros Hms He Hrq Hrs Hq Hs. unfold method_from_schema.
  rewrite Hms. cbn [rbind]. rewrite He. cbn [rbind].
  rewrite Hrq, Hrs. cbn [rbind]. by rewrite Hq, Hs.
Qed.

Lemma notification_from_schema_run schema name tn ns rq_js rs_js rq rs :
  getitem schema "notifications" = Ok ns →
  getitem ns (lower name +:+ ".request.json") = Ok rq_js →
  getitem ns (lower name +:+ ".schema.json") = Ok rs_js →
  from_js rq_js name = Ok rq →
  from_js rs_js name = Ok rs →
  notification_from_schema schema name tn
  = Ok (mkNotification name (mkTypeName tn)
          (set_typename (mkTypeName ("Stream" +:+ tn +:+ "Request")) rq)
          (set_typename (mkTypeName (tn +:+ "Notification")) rs)).
Proof.
  intros Hns Hrq Hrs Hq Hs. unfold notification_from_schema.
  rewrite Hns. cbn [rbind]. rewrite Hrq. cbn [rbind]. rewrite Hq.
  cbn [rbind]. rewrite Hrs. cbn [rbind]. by rewrite Hs.
Qed.

(** What a file of the directory becomes in the mapping of its loop. *)
Lemma collect_dir_file skip dir es r k data doc :
  collect_dir skip dir (Some (Dir es)) = Ok r →
  dict_get k es = Some (File data) → skip k = false →
  json_loads data = Some doc →
  dict_get k r = Some doc.
Proof.
  intros Hr Hget Hskip Hdoc.
  destruct (proj1 (collect_dir_get skip dir es r k Hr)) as (doc' & Hrd & ->);
    [|done|].
  - destruct (decide (k ∈ es.*1)) as [|Hk]; [done|].
    apply dict_get_None in Hk. congruence.
  - rewrite Hget in Hrd. simpl in Hrd. rewrite Hdoc in Hrd. congruence.
Qed.
End LoadBundled.

(** X5: no bundle that [combine_schemas] returns has an entry for
    [lightning-sql.json], whatever the schema directory holds; so on such a
    bundle [load_jsonrpc_method] raises the [KeyError] of that key for every
    name that is [sql] in lower case. *)
Theorem combine_schemas_never_bundles_sql `{JsonCodec} `{TypeModel}
    dir dest fs bundle fs' :
  combine_schemas dir dest fs = (Ok bundle, fs') →
  (∃ ms, getitem bundle "methods" = Ok (JObj ms)
         ∧ dict_get "lightning-sql.json" ms = None)
  ∧ ∀ name s o s1,
      lower name = "sql" →
      get_schema_bundle s = (Ok o, s1) → value o = bundle →
      load_jsonrpc_method name s
      = (Raise (KeyError "lightning-sql.json"), s1).
Proof.
  intros (es & ns & ms & nts & _ & _ & Hms & _ & -> & _)%combine_schemas_Ok_inv.
  assert (dict_get "lightning-sql.json" ms = None) as Hnone
    by (apply (collect_dir_get skip_method dir es ms _ Hms); by right).
  split; [by exists ms|].
  intros name s o s1 Hname Hg Ho.
  rewrite (load_jsonrpc_method_run _ _ _ _ Hg), Ho.
  unfold method_from_schema. rewrite Hname.
  change ("lightning-" +:+ "sql" +:+ ".json") with "lightning-sql.json".
  cbn [getitem dict_get String.eqb Ascii.eqb Bool.eqb rbind]. by rewrite Hnone.
Qed.

Lemma combine_schemas_never_bundles_sql_witness :
  ∃ s1,
    @load_jsonrpc_method Examples.pipeline_codec Examples.path_named_model
      "SQL" (Examples.fresh (Examples.render 2 0 Examples.artifact))
    = (Raise (KeyError "lightning-sql.json"), s1).
Proof.
  destruct (@combine_schemas Examples.pipeline_codec Examples.schema_dir
              Examples.dest (Examples.schemas Examples.notification_files))
    as [[bundle|e] fs'] eqn:Hrun; [|vm_compute in Hrun; discriminate Hrun].
  destruct (@combine_schemas_never_bundles_sql
              Examples.pipeline_codec Examples.path_named_model
              Examples.schema_dir Examples.dest
              (Examples.schemas Examples.notification_files) bundle fs' Hrun)
    as [_ Hsql].
  eexists. eapply Hsql; [reflexivity | reflexivity |].
  vm_compute in Hrun. by injection Hrun as <- _.
Defined.

(** X6: on a bundle that [combine_schemas] returned, [load_jsonrpc_method]
    finds what the schema directory held. When the directory has no entry
    named [lightning-<lowercased name>.json], the loader raises the
    [KeyError] of that key. When it has that file, the name is not [sql] in
    lower case, the file parses to a document with a request and a response
    subtree and the builder accepts both, the loader returns the Method of
    that name. *)
Theorem bundled_method_loads `{JsonCodec} `{TypeModel}
    dir dest fs bundle fs' es name s o s1 :
  resolve fs dir = Some (Dir es) →
  combine_schemas dir dest fs = (Ok bundle, fs') →
  get_schema_bundle s = (Ok o, s1) →
  value o = bundle →
  ("lightning-" +:+ lower name +:+ ".json" ∉ es.*1 →
   load_jsonrpc_method name s
   = (Raise (KeyError ("lightning-" +:+ lower name +:+ ".json")), s1))
  ∧ (∀ data entry rq_js rs_js rq rs,
       lower name ≠ "sql" →
       dict_get ("lightning-" +:+ lower name +:+ ".json") es
       = Some (File data) →
       json_loads data = Some entry →
       getitem entry "request" = Ok rq_js →
       getitem entry "response" = Ok rs_js →
       from_js rq_js name = Ok rq →
       from_js rs_js name = Ok rs →
       ∃ m, load_jsonrpc_method name s = (Ok m, s1)
            ∧ m_name m = name
            ∧ typename (m_request m) = TypeName_iadd (typename rq) "Request"
            ∧ typename (m_response m)
              = TypeName_iadd (typename rs) "Response").
Proof.
  intros Hes
    (es' & ns & ms & nts & Hes' & _ & Hms & _ & -> & _)%combine_schemas_Ok_inv
    Hg Ho.
  rewrite Hes in Hes'. injection Hes' as <-.
  rewrite (load_jsonrpc_method_run _ _ _ _ Hg), Ho. split.
  - intros Hkey.
    assert (dict_get ("lightning-" +:+ lower name +:+ ".json") ms = None)
      as Hnone by (apply (collect_dir_get skip_method dir es ms _ Hms); by left).
    unfold method_from_schema.
    cbn [getitem dict_get String.eqb Ascii.eqb Bool.eqb rbind].
    by rewrite Hnone.
  - intros data entry rq_js rs_js rq rs Hname Hget Hdoc Hrq Hrs Hq Hs.
    pose proof (collect_dir_file skip_method dir es ms _ data entry Hms Hget
                  (skip_method_rpc_name _ Hname) Hdoc) as Hentry.
    rewrite (method_from_schema_run _ name (JObj ms) entry rq_js rs_js rq rs);
      [by eexists|reflexivity| |done..].
    cbn [getitem]. by rewrite Hentry.
Qed.

Lemma bundled_method_loads_witness :
  ∃ m s1,
    @load_jsonrpc_method Examples.pipeline_codec Examples.path_named_model
      "Getinfo" (Examples.fresh (Examples.render 2 0 Examples.artifact))
    = (Ok m, s1)
    ∧ typename (m_request m) = mkTypeName "GetinfoRequest"
    ∧ typename (m_response m) = mkTypeName "GetinfoResponse".
Proof.
  destruct (@combine_schemas Examples.pipeline_codec Examples.schema_dir
              Examples.dest (Examples.schemas Examples.notification_files))
    as [[bundle|e] fs'] eqn:Hrun; [|vm_compute in Hrun; discriminate Hrun].
  assert (Examples.artifact = bundle) as Hb
    by (vm_compute in Hrun; by injection Hrun as <- _).
  destruct (@bundled_method_loads
              Examples.pipeline_codec Examples.path_named_model
              Examples.schema_dir Examples.dest
              (Examples.schemas Examples.notification_files) bundle fs'
              _ "Getinfo"
              (Examples.fresh (Examples.render 2 0 Examples.artifact))
              (mkObject 0 Examples.artifact)
              (mkProcess (Some (Examples.render 2 0 Examples.artifact)) 1 1
                 (Some (mkObject 0 Examples.artifact)))
              eq_refl Hrun eq_refl Hb) as [_ Hloads].
  destruct (Hloads "call" Examples.call_schema _ _ _ _
              ltac:(discriminate) eq_refl eq_refl eq_refl eq_refl
              eq_refl eq_refl) as (m & Hm & _ & Hrq & Hrs).
  exists m. eexists. split; [exact Hm|]. split; [exact Hrq | exact Hrs].
Defined.

(** X7: on a bundle that [combine_schemas] returned, [load_notification]
    finds what the notification subdirectory held. When the subdirectory
    has no entry named [<lowercased name>.request.json], the loader raises
    the [KeyError] of that key. When it has that file and the file
    [<lowercased name>.schema.json], both parse and the builder accepts
    both documents, the loader returns the Notification of that name. *)
Theorem bundled_notification_loads `{JsonCodec} `{TypeModel}
    dir dest fs bundle fs' ns name tn s o s1 :
  resolve fs (dir ++ ["notification"]) = Some (Dir ns) →
  combine_schemas dir dest fs = (Ok bundle, fs') →
  get_schema_bundle s = (Ok o, s1) →
  value o = bundle →
  (lower name +:+ ".request.json" ∉ ns.*1 →
   load_notification name tn s
   = (Raise (KeyError (lower name +:+ ".request.json")), s1))
  ∧ (∀ rq_data rs_data rq_js rs_js rq rs,
       dict_get (lower name +:+ ".request.json") ns = Some (File rq_data) →
       dict_get (lower name +:+ ".schema.json") ns = Some (File rs_data) →
       json_loads rq_data = Some rq_js →
       json_loads rs_data = Some rs_js →
       from_js rq_js name = Ok rq →
       from_js rs_js name = Ok rs →
       ∃ n, load_notification name tn s = (Ok n, s1)
            ∧ n_name n = name
            ∧ typename (n_request n)
              = mkTypeName ("Stream" +:+ tn +:+ "Request")
            ∧ typename (n_response n) = mkTypeName (tn +:+ "Notification")).
Proof.
  intros Hns
    (es & ns' & ms & nts & _ & Hns' & _ & Hnts & -> & _)%combine_schemas_Ok_inv
    Hg Ho.
  rewrite Hns in Hns'. injection Hns' as <-.
  rewrite (load_notification_run _ _ _ _ _ Hg), Ho. split.
  - intros Hkey.
    assert (dict_get (lower name +:+ ".request.json") nts = None) as Hnone
      by (apply (collect_dir_get skip_notification _ ns nts _ Hnts); by left).
    unfold notification_from_schema.
    cbn [getitem dict_get String.eqb Ascii.eqb Bool.eqb rbind].
    by rewrite Hnone.
  - intros rq_data rs_data rq_js rs_js rq rs Hrq Hrs Hdq Hds Hq Hs.
    pose proof (collect_dir_file skip_notification _ ns nts _ rq_data rq_js
                  Hnts Hrq (skip_notification_request _) Hdq) as Hrq'.
    pose proof (collect_dir_file skip_notification _ ns nts _ rs_data rs_js
                  Hnts Hrs (skip_notification_schema _) Hds) as Hrs'.
    rewrite (notification_from_schema_run _ name tn (JObj nts)
               rq_js rs_js rq rs); [by eexists|reflexivity| | |done..].
    + cbn [getitem]. by rewrite Hrq'.
    + cbn [getitem]. by rewrite Hrs'.
Qed.

Lemma bundled_notification_loads_witness :
  ∃ n s1,
    @load_notification Examples.pipeline_codec Examples.path_named_model
      "block_added" "BlockAdded"
      (Examples.fresh (Examples.render 2 0 Examples.artifact))
    = (Ok n, s1)
    ∧ typename (n_request n) = mkTypeName "StreamBlockAddedRequest"
    ∧ typename (n_response n) = mkTypeName "BlockAddedNotification".
Proof.
  destruct (@combine_schemas Examples.pipeline_codec Examples.schema_dir
              Examples.dest (Examples.schemas Examples.notification_files))
    as [[bundle|e] fs'] eqn:Hrun; [|vm_compute in Hrun; discriminate Hrun].
  assert (Examples.artifact = bundle) as Hb
    by (vm_compute in Hrun; by injection Hrun as <- _).
  destruct (@bundled_notification_loads
              Examples.pipeline_codec Examples.path_named_model
              Examples.schema_dir Examples.dest
              (Examples.schemas Examples.notification_files) bundle fs'
              _ "block_added" "BlockAdded"
              (Examples.fresh (Examples.render 2 0 Examples.artifact))
              (mkObject 0 Examples.artifact)
              (mkProcess (Some (Examples.render 2 0 Examples.artifact)) 1 1
                 (Some (mkObject 0 Examples.artifact)))
              eq_refl Hrun eq_refl Hb) as [_ Hloads].
  destruct (Hloads "{}" "{}" _ _ _ _ eq_refl eq_refl eq_refl eq_refl
              eq_refl eq_refl) as (n & Hn & _ & Hrq & Hrs).
  exists n. eexists. split; [exact Hn|]. split; [exact Hrq | exact Hrs].
Defined.

(** ** The cache over the life of a process *)

Lemma get_schema_bundle_opens `{JsonCodec} s :
  opens (get_schema_bundle s).2
  = match cache s with Some _ => opens s | None => S (opens s) end.
Proof.
  unfold get_schema_bundle, lru_cache, get_schema_bundle_body, bind,
    open_text, json_load_object.
  destruct (cache s); [done|].
  destruct (resource s) as [text|]; [|done]. simpl.
  by destruct (json_loads text).
Qed.

(** X8: a call of [get_schema_bundle] that raises stores nothing: the cache
    is empty after it and the resource was opened once, so the next call
    opens the resource again, and returns the parsed document once the
    resource is there and parses. *)
Theorem get_schema_bundle_failure_not_cached `{JsonCodec} s e s1 :
  get_schema_bundle s = (Raise e, s1) →
  cache s1 = None
  ∧ opens s1 = S (opens s)
  ∧ ∀ text doc,
      json_loads text = Some doc →
      ∃ o s2,
        get_schema_bundle (with_resource (Some text) s1) = (Ok o, s2)
        ∧ value o = doc
        ∧ opens s2 = S (S (opens s))
        ∧ cache s2 = Some o.
Proof.
  intros Hfail.
  assert (cache s1 = None ∧ opens s1 = S (opens s)) as [Hc1 Ho1].
  { unfold get_schema_bundle, lru_cache, get_schema_bundle_body, bind,
      open_text, json_load_object in Hfail.
    destruct (cache s) eqn:Hc; [done|].
    destruct (resource s) as [t|]; simpl in Hfail;
      [destruct (json_loads t); [done|]|]; by injection Hfail as _ <-. }
  split; [done|]. split; [done|].
  intros text doc Hdoc.
  unfold get_schema_bundle, lru_cache, get_schema_bundle_body, bind,
    open_text, json_load_object. simpl. rewrite Hc1, Hdoc. simpl.
  eexists _, _. split; [reflexivity|]. simpl. by rewrite Ho1.
Qed.

Lemma get_schema_bundle_failure_not_cached_witness :
  ∃ e s1 o s2,
    @get_schema_bundle Examples.codec (mkProcess None 0 0 None)
    = (Raise e, s1)
    ∧ @get_schema_bundle Examples.codec (with_resource (Some "small") s1)
      = (Ok o, s2)
    ∧ value o = Examples.small_bundle
    ∧ opens s2 = 2.
Proof.
  destruct (@get_schema_bundle_failure_not_cached Examples.codec
              (mkProcess None 0 0 None) FileNotFoundError
              (mkProcess None 1 0 None) eq_refl) as (_ & _ & Hnext).
  destruct (Hnext "small" Examples.small_bundle eq_refl)
    as (o & s2 & Hg & Ho & Hopens & _).
  exists FileNotFoundError, (mkProcess None 1 0 None), o, s2.
  split; [reflexivity|]. split; [exact Hg|]. split; [exact Ho | exact Hopens].
Defined.

(** X9: however it ends, a call of [load_jsonrpc_service] opens the bundle
    resource once when the cache is empty and not at all when the cache is
    filled, although each of its loaders calls the getter. *)
Theorem load_jsonrpc_service_opens_once `{JsonCodec} `{TypeModel} s :
  opens (load_jsonrpc_service s).2
  = match cache s with Some _ => opens s | None => S (opens s) end.
Proof.
  rewrite <-get_schema_bundle_opens.
  destruct (get_schema_bundle s) as [[o|e] s1] eqn:Hg.
  - by rewrite (load_jsonrpc_service_run _ _ _ Hg).
  - by rewrite (load_jsonrpc_service_bundle_error _ _ _ Hg).
Qed.

(** X10: after a call of [load_jsonrpc_service] that returned a Service,
    the next call returns an equal Service and leaves the process as it
    is. *)
Theorem load_jsonrpc_service_again `{JsonCodec} `{TypeModel} s svc s1 :
  load_jsonrpc_service s = (Ok svc, s1) →
  load_jsonrpc_service s1 = (Ok svc, s1).
Proof.
  intros Hrun.
  destruct (load_jsonrpc_service_inv _ _ _ Hrun)
    as (o & ms & ns & Hg & _ & _ & _).
  rewrite (load_jsonrpc_service_run _ _ _ Hg) in Hrun.
  by rewrite (load_jsonrpc_service_run _ _ _ (get_schema_bundle_again _ _ _ Hg)).
Qed.

Lemma load_jsonrpc_service_again_witness :
  ∃ svc s1,
    @load_jsonrpc_service Examples.codec Examples.path_named_model
      (Examples.fresh "full") = (Ok svc, s1)
    ∧ @load_jsonrpc_service Examples.codec Examples.path_named_model s1
      = (Ok svc, s1).
Proof.
  destruct (@load_jsonrpc_service Examples.codec Examples.path_named_model
              (Examples.fresh "full")) as [[svc|e] s1] eqn:Hsvc.
  - exists svc, s1. split; [reflexivity|].
    exact (@load_jsonrpc_service_again
             Examples.codec Examples.path_named_model _ _ _ Hsvc).
  - vm_compute in Hsvc. discriminate Hsvc.
Defined.

(** ** The first failure of the assembler *)

Lemma mapR_Raise_first {A B} (f : A → result B) xs e :
  mapR f xs = Raise e →
  ∃ pre x post,
    xs = pre ++ x :: post
    ∧ Forall (λ y, ∃ b, f y = Ok b) pre
    ∧ f x = Raise e.
Proof.
  induction xs as [|x xs IH]; simpl; [done|].
  destruct (f x) as [b|e'] eqn:Hx; cbn [rbind].
  - destruct (mapR f xs) as [bs|e'] eqn:Hxs; cbn [rbind]; [done|].
    intros [= ->]. destruct IH as (pre & y & post & -> & Hpre & Hy); [done|].
    exists (x :: pre), y, post. split; [done|]. split; [|done].
    constructor; [by exists b | done].
  - intros [= ->]. exists [], x, xs. by repeat split.
Qed.

(** X11: with the bundle loaded, a call of [load_jsonrpc_service] that
    raises raises the exception of the first manifest entry whose loader
    raises, the method names before the notification descriptors, each list
    in its declared order: the loaders of all entries before that one
    return. *)
Theorem load_jsonrpc_service_first_failure `{JsonCodec} `{TypeModel}
    s o s1 e s' :
  get_schema_bundle s = (Ok o, s1) →
  load_jsonrpc_service s = (Raise e, s') →
  s' = s1
  ∧ ((∃ pre n post,
        method_names = pre ++ n :: post
        ∧ Forall (λ x, ∃ m, load_jsonrpc_method x s1 = (Ok m, s1)) pre
        ∧ load_jsonrpc_method n s1 = (Raise e, s1))
     ∨ (Forall (λ x, ∃ m, load_jsonrpc_method x s1 = (Ok m, s1)) method_names
        ∧ ∃ pre d post,
            notification_names = pre ++ d :: post
            ∧ Forall (λ x, ∃ n, load_notification x.1 x.2 s1 = (Ok n, s1)) pre
            ∧ load_notification d.1 d.2 s1 = (Raise e, s1))).
Proof.
  intros Hg. pose proof (get_schema_bundle_again _ _ _ Hg) as Hg1.
  assert (∀ n, load_jsonrpc_method n s1
               = (method_from_schema (value o) n, s1)) as Hm
    by (intros; by apply load_jsonrpc_method_run).
  assert (∀ d : string * string,
            load_notification d.1 d.2 s1
            = (notification_from_schema (value o) d.1 d.2, s1)) as Hn
    by (intros; by apply load_notification_run).
  rewrite (load_jsonrpc_service_run _ _ _ Hg).
  destruct (mapR (method_from_schema (value o)) method_names)
    as [ms|e1] eqn:Hms; cbn [rbind].
  - destruct (mapR (λ d, notification_from_schema (value o) d.1 d.2)
                notification_names) as [ns|e2] eqn:Hns; cbn [rbind]; [done|].
    intros [= -> <-]. split; [done|]. right. split.
    + apply Forall_forall. intros x Hx.
      destruct (mapR_Ok_elem_of _ _ _ x Hms Hx) as [m Hok].
      exists m. by rewrite Hm, Hok.
    + apply mapR_Raise_first in Hns as (pre & d & post & Hsplit & Hpre & Hd).
      exists pre, d, post. split; [done|]. split.
      * eapply Forall_impl; [exact Hpre|]. intros x [n Hok].
        exists n. rewrite Hn. cbn beta in Hok. by rewrite Hok.
      * rewrite Hn. by rewrite Hd.
  - intros [= -> <-]. split; [done|]. left.
    apply mapR_Raise_first in Hms as (pre & n & post & Hsplit & Hpre & Hd).
    exists pre, n, post. split; [done|]. split.
    + eapply Forall_impl; [exact Hpre|]. intros x [m Hok].
      exists m. by rewrite Hm, Hok.
    + rewrite Hm. by rewrite Hd.
Qed.

Lemma load_jsonrpc_service_first_failure_witness :
  ∃ pre post,
    method_names = pre ++ "ListPeers" :: post
    ∧ @load_jsonrpc_service Examples.codec Examples.path_named_model
        (Examples.fresh "small")
      = (Raise (KeyError "lightning-listpeers.json"),
         mkProcess (Some "small") 1 1 (Some (mkObject 0 Examples.small_bundle))).
Proof.
  destruct (@load_jsonrpc_service_first_failure
              Examples.codec Examples.path_named_model
              (Examples.fresh "small") (mkObject 0 Examples.small_bundle)
              (mkProcess (Some "small") 1 1
                 (Some (mkObject 0 Examples.small_bundle)))
              (KeyError "lightning-listpeers.json")
              (mkProcess (Some "small") 1 1
                 (Some (mkObject 0 Examples.small_bundle)))
              eq_refl eq_refl) as [_ _].
  exists ["Getinfo"], (drop 2 method_names). split; reflexivity.
Defined.

(** ** The type names of the notifications *)

Lemma Request_ne_Notification a b : a +:+ "Request" ≠ b +:+ "Notification".
Proof.
  intros Hab. apply (f_equal list_ascii_of_string) in Hab.
  rewrite !list_ascii_of_string_app in Hab.
  apply (f_equal (@rev ascii)) in Hab.
  rewrite !rev_app_distr in Hab. simpl in Hab. discriminate Hab.
Qed.

Lemma Response_ne_Notification a b : a +:+ "Response" ≠ b +:+ "Notification".
Proof.
  intros Hab. apply (f_equal list_ascii_of_string) in Hab.
  rewrite !list_ascii_of_string_app in Hab.
  apply (f_equal (@rev ascii)) in Hab.
  rewrite !rev_app_distr in Hab. simpl in Hab. discriminate Hab.
Qed.

Lemma notification_typenames_NoDup : NoDup notification_names.*2.
Proof. apply (bool_decide_unpack _). by vm_compute. Qed.

#[local] Instance stream_request_TypeName_inj :
  Inj (=) (=) (λ t, mkTypeName ("Stream" +:+ t +:+ "Request")).
Proof.
  intros a b [= Hab]. exact (append_suffix_inj "Request" a b Hab).
Qed.

Lemma notification_from_schema_typenames `{JsonCodec} `{TypeModel}
    schema name tn x :
  notification_from_schema schema name tn = Ok x →
  typename (n_request x) = mkTypeName ("Stream" +:+ tn +:+ "Request")
  ∧ typename (n_response x) = mkTypeName (tn +:+ "Notification").
Proof.
  unfold notification_from_schema.
  destruct (getitem schema "notifications") as [ns|?]; cbn [rbind]; [|done].
  destruct (getitem ns (lower name +:+ ".request.json")) as [a|?];
    cbn [rbind]; [|done].
  destruct (from_js a name) as [rq|?]; cbn [rbind]; [|done].
  destruct (getitem ns (lower name +:+ ".schema.json")) as [b|?];
    cbn [rbind]; [|done].
  destruct (from_js b name) as [rs|?]; cbn [rbind]; [|done].
  by intros [= <-].
Qed.

(** X12: in a Service that [load_jsonrpc_service] returns, whatever names
    the builder gives its trees, the request and response type names of the
    notifications are pairwise distinct, none of them is the response type
    name of a method, and no response type name of a notification is the
    request type name of a method. *)
Theorem notification_typenames_distinct `{JsonCodec} `{TypeModel} s svc s1 :
  load_jsonrpc_service s = (Ok svc, s1) →
  NoDup (((λ n, typename (n_request n)) <$> s_notifications svc)
         ++ ((λ n, typename (n_response n)) <$> s_notifications svc))
  ∧ (∀ t, t ∈ ((λ n, typename (n_request n)) <$> s_notifications svc)
              ++ ((λ n, typename (n_response n)) <$> s_notifications svc) →
          t ∉ (λ m, typename (m_response m)) <$> s_methods svc)
  ∧ (∀ t, t ∈ (λ n, typename (n_response n)) <$> s_notifications svc →
          t ∉ (λ m, typename (m_request m)) <$> s_methods svc).
Proof.
  intros (o & ms & ns & _ & Hms & Hns & ->)%load_jsonrpc_service_inv.
  cbn [s_methods s_notifications].
  apply mapR_Ok_Forall2 in Hms, Hns.
  assert ((λ n, typename (n_request n)) <$> ns
          = (λ t, mkTypeName ("Stream" +:+ t +:+ "Request"))
              <$> notification_names.*2) as ->.
  { rewrite <-list_fmap_compose. apply Forall2_fmap_eq.
    eapply Forall2_impl; [exact Hns|]. intros d x Hx. cbn beta in Hx.
    by apply notification_from_schema_typenames in Hx as [? _]. }
  assert ((λ n, typename (n_response n)) <$> ns
          = (λ t, mkTypeName (t +:+ "Notification"))
              <$> notification_names.*2) as ->.
  { rewrite <-list_fmap_compose. apply Forall2_fmap_eq.
    eapply Forall2_impl; [exact Hns|]. intros d x Hx. cbn beta in Hx.
    by apply notification_from_schema_typenames in Hx as [_ ?]. }
  assert (∀ t, t ∈ (λ m, typename (m_response m)) <$> ms →
               ∃ a, t = mkTypeName (a +:+ "Response")) as Hresp.
  { intros t (m & -> & [i Hi]%list_elem_of_lookup_1)%list_elem_of_fmap.
    destruct (Forall2_lookup_r _ _ _ _ _ Hms Hi) as (n & _ & Hm).
    apply method_from_schema_Ok in Hm as (? & ? & rq & rs & _ & _ & ->).
    by eexists. }
  assert (∀ t, t ∈ (λ m, typename (m_request m)) <$> ms →
               ∃ a, t = mkTypeName (a +:+ "Request")) as Hreq.
  { intros t (m & -> & [i Hi]%list_elem_of_lookup_1)%list_elem_of_fmap.
    destruct (Forall2_lookup_r _ _ _ _ _ Hms Hi) as (n & _ & Hm).
    apply method_from_schema_Ok in Hm as (? & ? & rq & rs & _ & _ & ->).
    by eexists. }
  split; [|split].
  - apply NoDup_app. split; [|split].
    + apply (NoDup_fmap_2 _), notification_typenames_NoDup.
    + intros t (a & -> & _)%list_elem_of_fmap (b & [= Hab] & _)%list_elem_of_fmap.
      rewrite <-string_app_assoc in Hab. by apply Request_ne_Notification in Hab.
    + apply (NoDup_fmap_2 _), notification_typenames_NoDup.
  - intros t [(a & -> & _)%list_elem_of_fmap|(a & -> & _)%list_elem_of_fmap]%elem_of_app
      [b [= Hab]]%Hresp.
    + rewrite <-string_app_assoc in Hab. by apply Request_ne_Response in Hab.
    + symmetry in Hab. by apply Response_ne_Notification in Hab.
  - intros t (a & -> & _)%list_elem_of_fmap [b [= Hab]]%Hreq.
    symmetry in Hab. by apply Request_ne_Notification in Hab.
Qed.

Lemma notification_typenames_distinct_witness :
  ∃ svc s1,
    @load_jsonrpc_service Examples.codec Examples.path_named_model
      (Examples.fresh "full") = (Ok svc, s1)
    ∧ NoDup (((λ n, typename (n_request n)) <$> s_notifications svc)
             ++ ((λ n, typename (n_response n)) <$> s_notifications svc)).
Proof.
  destruct (@load_jsonrpc_service Examples.codec Examples.path_named_model
              (Examples.fresh "full")) as [[svc|e] s1] eqn:Hsvc.
  - exists svc, s1. split; [reflexivity|].
    exact (proj1 (@notification_typenames_distinct
                    Examples.codec Examples.path_named_model _ _ _ Hsvc)).
  - vm_compute in Hsvc. discriminate Hsvc.
Defined.
